(** * oneDNN GEMM dispatch of the XLA GPU backend

    A shallow embedding of [xla/service/gpu/onednn_matmul_utils.cc]:
    the matrix descriptors, their derivation from a [MatrixLayout], the
    operand swap that removes a transposed output, the shape and stride
    tuples handed to oneDNN, the post-operations selected from [alpha] and
    [beta], and the dtype validation and dispatch of [RunGemm].

    Integers of type [int64_t] are [Z]: the code copies and compares them
    but never does arithmetic on them, so no wrap-around is involved.
    [float] and [double] values are [spec_float]s of the IEEE-754 binary32
    and binary64 formats. *)

From Stdlib Require Import ZArith QArith Qabs Qpower Bool Lia.
From Stdlib Require Import Floats.SpecFloat.
From stdpp Require Import base decidable list strings.

Local Open Scope Z_scope.

(** ** Types declared outside this translation unit *)

(** Modelled from the spec: [se::blas::Transpose], the logical transpose
    flag of a descriptor; its declaration (xla/stream_executor/blas.h) is
    not part of these sources.  The code compares the flag with
    [kTranspose] in some places and with [kNoTranspose] in others, so the
    third BLAS enumerator is kept: it is equal to neither. *)
Inductive Transpose : Set :=
| kNoTranspose
| kTranspose
| kConjugateTranspose.

(** Modelled from the spec: [MatrixLayout::Order], the storage order
    (row-major or column-major) of a layout. *)
Inductive Order : Set :=
| kRowMajor
| kColumnMajor.

(** Modelled from the spec: [xla::PrimitiveType], the element data type.
    The seven enumerators that the code names are constructors; every other
    enumerator of the protobuf enum is an [OtherPrimitiveType], told apart
    by its number. *)
Inductive PrimitiveType : Set :=
| F16 | BF16 | F32 | F64 | C64 | C128 | S32
| OtherPrimitiveType (tag : N).

#[global] Instance Transpose_eq_dec : EqDecision Transpose.
Proof. solve_decision. Defined.
#[global] Instance Order_eq_dec : EqDecision Order.
Proof. solve_decision. Defined.
#[global] Instance PrimitiveType_eq_dec : EqDecision PrimitiveType.
Proof. solve_decision. Defined.

(** [se::DeviceMemoryBase]: only the base address is looked at here. *)
Record DeviceMemoryBase : Set := { opaque : Z }.

(** Modelled from the spec: [MatrixLayout], the external description of a
    batched matrix (row count, column count, batch size, storage order,
    leading-dimension stride, batch stride, element data type). *)
Record MatrixLayout : Set := {
  dtype : PrimitiveType;
  layout_num_rows : Z;
  layout_num_cols : Z;
  order : Order;
  layout_leading_dim_stride : Z;
  batch_size : Z;
  layout_batch_stride : Z
}.

(** ** Matrix descriptors *)

Record MatrixDescriptor : Set := {
  data : DeviceMemoryBase;
  transpose : Transpose;
  num_rows : Z;
  num_cols : Z;
  batch_stride : Z;
  leading_dim_stride : Z
}.

Definition reduced_dim (d : MatrixDescriptor) : Z :=
  if decide (transpose d = kTranspose) then num_rows d else num_cols d.

Definition GetMatrixDesc (layout : MatrixLayout) (data : DeviceMemoryBase)
  : MatrixDescriptor :=
  let transpose := bool_decide (order layout = kColumnMajor) in
  {| data := data;
     transpose := if transpose then kTranspose else kNoTranspose;
     num_rows := if transpose then layout_num_cols layout
                 else layout_num_rows layout;
     num_cols := if transpose then layout_num_rows layout
                 else layout_num_cols layout;
     batch_stride := layout_batch_stride layout;
     leading_dim_stride := layout_leading_dim_stride layout |}.

(** ** Removing a transposed output *)

Definition TransposeMatrixDesc (matrix_desc : MatrixDescriptor)
  : MatrixDescriptor :=
  {| data := data matrix_desc;
     transpose := if decide (transpose matrix_desc = kNoTranspose)
                  then kTranspose else kNoTranspose;
     num_rows := num_rows matrix_desc;
     num_cols := num_cols matrix_desc;
     batch_stride := batch_stride matrix_desc;
     leading_dim_stride := leading_dim_stride matrix_desc |}.

(** The three descriptors that [MakeBlasGemmCompatible] receives by
    reference and updates in place; [RunGemm] passes three distinct local
    variables, so the references never alias. *)
Record Operands : Set := {
  op_lhs : MatrixDescriptor;
  op_rhs : MatrixDescriptor;
  op_output : MatrixDescriptor
}.

Definition MakeBlasGemmCompatible (ops : Operands) : Operands :=
  if decide (transpose (op_output ops) = kTranspose) then
    (* std::swap(lhs, rhs) *)
    let swapped := {| op_lhs := op_rhs ops;
                      op_rhs := op_lhs ops;
                      op_output := op_output ops |} in
    {| op_lhs := TransposeMatrixDesc (op_lhs swapped);
       op_rhs := TransposeMatrixDesc (op_rhs swapped);
       op_output := TransposeMatrixDesc (op_output swapped) |}
  else ops.

(** ** Shapes and strides for oneDNN *)

(** [dnnl::memory::dims] is a [std::vector<int64_t>]. *)
Abbreviation dims := (list Z).

(** [std::swap(v[i], v[j])].  Both indices are in range wherever the code
    calls it (the vectors have three entries); out of range the model
    leaves the vector alone. *)
Definition swap_entries (i j : nat) (v : dims) : dims :=
  match v !! i, v !! j with
  | Some x, Some y => <[j := x]> (<[i := y]> v)
  | _, _ => v
  end.

Record OneDnnMatMulParams : Set := {
  a_dims : dims;
  b_dims : dims;
  c_dims : dims;
  a_strides : dims;
  b_strides : dims;
  c_strides : dims
}.

Definition idx_last : nat := 2.
Definition idx_2nd_last : nat := 1.

Definition CreateMatMulParams (batch_size : Z)
    (lhs rhs out : MatrixDescriptor) : OneDnnMatMulParams :=
  let lhs_dims := [batch_size; num_rows lhs; num_cols lhs] in
  let rhs_dims := [batch_size; num_rows rhs; num_cols rhs] in
  let out_dims := [batch_size; num_rows out; num_cols out] in
  let lhs_strides := [batch_stride lhs; leading_dim_stride lhs; 1] in
  let rhs_strides := [batch_stride rhs; leading_dim_stride rhs; 1] in
  let out_strides := [batch_stride out; leading_dim_stride out; 1] in
  let '(lhs_dims, lhs_strides) :=
    if decide (transpose lhs = kTranspose)
    then (swap_entries idx_last idx_2nd_last lhs_dims,
          swap_entries idx_last idx_2nd_last lhs_strides)
    else (lhs_dims, lhs_strides) in
  let '(rhs_dims, rhs_strides) :=
    if decide (transpose rhs = kTranspose)
    then (swap_entries idx_last idx_2nd_last rhs_dims,
          swap_entries idx_last idx_2nd_last rhs_strides)
    else (rhs_dims, rhs_strides) in
  {| a_dims := lhs_dims; b_dims := rhs_dims; c_dims := out_dims;
     a_strides := lhs_strides; b_strides := rhs_strides;
     c_strides := out_strides |}.

(** ** Scalars

    [float] is IEEE-754 binary32 and [double] binary64, both as
    [spec_float]s; arithmetic rounds to nearest, ties to even. *)

Definition float_prec : Z := 24.
Definition float_emax : Z := 128.
Definition double_prec : Z := 53.
Definition double_emax : Z := 1024.

Definition is_float (x : spec_float) : bool :=
  valid_binary float_prec float_emax x.
Definition is_double (x : spec_float) : bool :=
  valid_binary double_prec double_emax x.

(** The literals [1.0f] and [0.0f]. *)
Definition float_1 : spec_float := S754_finite false 8388608 (-23).
Definition float_0 : spec_float := S754_zero false.

(** The literal [1e-6], a [double]: the binary64 number nearest to one
    millionth, [4722366482869645 * 2^-72]. *)
Definition double_1e_6 : spec_float :=
  S754_finite false 4722366482869645 (-72).

Definition float_sub (x y : spec_float) : spec_float :=
  SFsub float_prec float_emax x y.

(** [fabs]; the sign bit is cleared, in either format. *)
Definition fabs (x : spec_float) : spec_float := SFabs x.

(** The conversion of a [float] to [double], which is exact. *)
Definition float_to_double (x : spec_float) : spec_float :=
  match x with
  | S754_finite s m e => binary_round double_prec double_emax s m e
  | _ => x
  end.

(** The conversion of a [double] to [float], as when [config.alpha.real()]
    and [config.beta] are passed for the [float] parameters of [DoGemm]. *)
Definition double_to_float (x : spec_float) : spec_float :=
  match x with
  | S754_finite s m e => binary_round float_prec float_emax s m e
  | _ => x
  end.

(** [x > y] on [double]s; false when either is a NaN. *)
Definition double_gt (x y : spec_float) : bool :=
  SFltb y x.

(** [std::complex<double>]. *)
Record complex128 : Set := { real : spec_float; imag : spec_float }.

(** Modelled from the spec: [GemmConfig], which bundles the three layouts,
    the scalars [alpha] (complex, real part used) and [beta], and the
    compute-precision policy. *)
Record GemmConfig : Set := {
  lhs_layout : MatrixLayout;
  rhs_layout : MatrixLayout;
  output_layout : MatrixLayout;
  alpha : complex128;
  beta : spec_float;
  compute_precision : Z
}.

(** ** The oneDNN primitive, as far as this file configures it *)

(** The template argument [Input] of [DoGemm]; [OneDnnType<Input>()] is the
    oneDNN data type of the same name. *)
Inductive InputType : Set := Eigen_half | Eigen_bfloat16 | float.

#[global] Instance InputType_eq_dec : EqDecision InputType.
Proof. solve_decision. Defined.

Record memory_desc : Set := {
  md_dims : dims;
  md_data_type : InputType;
  md_strides : dims
}.

Inductive post_op : Set :=
| eltwise_linear (scale shift : spec_float)
| sum (scale : spec_float).

(** [dnnl::primitive_attr]: the scratchpad mode is always [user]; the
    floating-point math mode is [None] until [set_fpmath_mode] is called. *)
Record primitive_attr : Set := {
  fpmath_mode : option N;
  post_ops : list post_op
}.

Record matmul_primitive_desc : Set := {
  src_md : memory_desc;
  weights_md : memory_desc;
  dst_md : memory_desc;
  attr : primitive_attr
}.

Inductive Status : Set :=
| OkStatus
  (** [InternalError(format, ...)]: the format string and the dtypes whose
      lowercase names fill its [%s] fields, in order. *)
| InternalError (format : string) (args : list PrimitiveType)
  (** an error status produced outside this file *)
| ExternalError (message : string).

#[global] Instance Status_eq_dec : EqDecision Status.
Proof. solve_decision. Defined.

(** What a call does: it returns a status, or a [CHECK] fails and the
    process is aborted. *)
Inductive Outcome : Set :=
| Returned (s : Status)
| CheckFailed.

(** The calls into oneDNN and the scratch allocator, in program order. *)
Inductive BackendCall : Set :=
| FindOrCreateEngine
| MatmulPrimitiveDesc (pd : matmul_primitive_desc)
| AllocateWorkspace (bytes : Z)
| Execute (pd : matmul_primitive_desc) (src weights dst scratchpad : Z).

(** What the collaborators answer: the math mode of [GetFP32MathMode], the
    scratchpad size oneDNN reports for a primitive, and the status and
    pointer that [AllocateWorkspace] yields for a size. *)
Record Backend : Type := {
  GetFP32MathMode : N;
  scratchpad_size : matmul_primitive_desc -> Z;
  allocate_workspace : Z -> Status * Z
}.

(** The post-operations of [C = alpha * MatMul(A, B) + beta * C], which
    [DoGemm] collects before it builds the primitive.  The two conditions
    are [fabs(alpha - 1.0f) > 1e-6] and [fabs(beta - 0.0f) > 1e-6]: the
    subtraction is done in [float], the comparison in [double]. *)
Definition scale_registered (alpha : spec_float) : bool :=
  double_gt (float_to_double (fabs (float_sub alpha float_1))) double_1e_6.

Definition sum_registered (beta : spec_float) : bool :=
  double_gt (float_to_double (fabs (float_sub beta float_0))) double_1e_6.

Definition gemm_post_ops (alpha beta : spec_float) : list post_op :=
  let post_ops := [] in
  let post_ops :=
    if scale_registered alpha
    then post_ops ++ [eltwise_linear alpha float_0] else post_ops in
  let post_ops :=
    if sum_registered beta then post_ops ++ [sum beta] else post_ops in
  post_ops.

Definition DoGemm (B : Backend) (Input : InputType)
    (batch_size m n k : Z) (lhs rhs output : MatrixDescriptor)
    (alpha beta : spec_float) (compute_precision : Z)
  : Outcome * list BackendCall :=
  if decide (transpose output = kNoTranspose) then
    let lhs_data := opaque (data lhs) in
    let rhs_data := opaque (data rhs) in
    let out_data := opaque (data output) in
    let params := CreateMatMulParams batch_size lhs rhs output in
    let src_md := {| md_dims := a_dims params; md_data_type := Input;
                     md_strides := a_strides params |} in
    let weights_md := {| md_dims := b_dims params; md_data_type := Input;
                         md_strides := b_strides params |} in
    let dst_md := {| md_dims := c_dims params; md_data_type := Input;
                     md_strides := c_strides params |} in
    let post_ops_attr :=
      {| fpmath_mode := if decide (Input = float)
                        then Some (GetFP32MathMode B) else None;
         post_ops := gemm_post_ops alpha beta |} in
    let matmul_pd := {| src_md := src_md; weights_md := weights_md;
                        dst_md := dst_md; attr := post_ops_attr |} in
    let scratchpad_size := scratchpad_size B matmul_pd in
    let '(status, workspace) := allocate_workspace B scratchpad_size in
    let calls := [FindOrCreateEngine; MatmulPrimitiveDesc matmul_pd;
                  AllocateWorkspace scratchpad_size] in
    if decide (status = OkStatus) then
      (Returned OkStatus,
       calls ++ [Execute matmul_pd lhs_data rhs_data out_data workspace])
    else (Returned status, calls)
  else (CheckFailed, []).

(** ** The entry point *)

Definition mismatch_format : string :=
  "GEMM lhs type(%s) and rhs type(%s) must match output type(%s)".
Definition unexpected_format : string := "Unexpected GEMM dtype: %s".

Definition RunGemm (B : Backend) (config : GemmConfig)
    (lhs_buffer rhs_buffer output_buffer : DeviceMemoryBase)
  : Outcome * list BackendCall :=
  let lhs_layout := lhs_layout config in
  let rhs_layout := rhs_layout config in
  let output_layout := output_layout config in
  let m := layout_num_rows output_layout in
  let n := layout_num_cols output_layout in
  let k := layout_num_cols lhs_layout in
  let lhs := GetMatrixDesc lhs_layout lhs_buffer in
  let rhs := GetMatrixDesc rhs_layout rhs_buffer in
  let output := GetMatrixDesc output_layout output_buffer in
  let batch_size := batch_size output_layout in
  let ops := MakeBlasGemmCompatible
               {| op_lhs := lhs; op_rhs := rhs; op_output := output |} in
  let lhs := op_lhs ops in
  let rhs := op_rhs ops in
  let output := op_output ops in
  if bool_decide (dtype output_layout = F16 \/ dtype output_layout = BF16 \/
                  dtype output_layout = F32 \/ dtype output_layout = F64 \/
                  dtype output_layout = C64 \/ dtype output_layout = C128)
     && bool_decide (dtype lhs_layout <> dtype output_layout \/
                     dtype rhs_layout <> dtype output_layout)
  then (Returned (InternalError mismatch_format
                    [dtype lhs_layout; dtype rhs_layout;
                     dtype output_layout]), [])
  else
    let run Input :=
      DoGemm B Input batch_size m n k lhs rhs output
        (double_to_float (real (alpha config)))
        (double_to_float (beta config)) (compute_precision config) in
    match dtype output_layout with
    | F16 => run Eigen_half
    | BF16 => run Eigen_bfloat16
    | F32 => run float
    | S32 | F64 | C64 | C128 | _ =>
        (Returned (InternalError unexpected_format [dtype output_layout]),
         [])
    end.

(** * The dispatcher's contract

    The notions in which the properties below are stated; they follow the
    wording of the dispatcher's description, not the code. *)

(** [d'] is [d] with its transpose flag flipped: not-transposed becomes
    transposed and transposed becomes not-transposed; nothing else
    changes. *)
Definition flipped (d d' : MatrixDescriptor) : Prop :=
  (transpose d = kNoTranspose -> transpose d' = kTranspose) /\
  (transpose d = kTranspose -> transpose d' = kNoTranspose) /\
  data d' = data d /\ num_rows d' = num_rows d /\
  num_cols d' = num_cols d /\ batch_stride d' = batch_stride d /\
  leading_dim_stride d' = leading_dim_stride d.

(** The tuples of an operand: the shape is
    [(batch_size, num_rows, num_cols)] and the strides are
    [(batch_stride, leading_dim_stride, 1)], each with its last two entries
    swapped when the operand is marked transposed. *)
Definition operand_dims (batch_size : Z) (d : MatrixDescriptor) : dims :=
  if decide (transpose d = kTranspose)
  then [batch_size; num_cols d; num_rows d]
  else [batch_size; num_rows d; num_cols d].

Definition operand_strides (d : MatrixDescriptor) : dims :=
  if decide (transpose d = kTranspose)
  then [batch_stride d; 1; leading_dim_stride d]
  else [batch_stride d; leading_dim_stride d; 1].

(** The two errors of [RunGemm], both raised before anything reaches
    oneDNN. *)
Definition type_mismatch_error (l r o : PrimitiveType)
  : Outcome * list BackendCall :=
  (Returned (InternalError mismatch_format [l; r; o]), []).

Definition unexpected_dtype_error (o : PrimitiveType)
  : Outcome * list BackendCall :=
  (Returned (InternalError unexpected_format [o]), []).

(** The output dtypes for which lhs and rhs are compared with the
    output. *)
Definition validated_dtypes : list PrimitiveType :=
  [F16; BF16; F32; F64; C64; C128].

(** The rational number that a finite float stands for. *)
Definition float_value (x : spec_float) : Q :=
  match x with
  | S754_finite s m e => (inject_Z (cond_Zopp s (Zpos m)) * 2 ^ e)%Q
  | _ => 0%Q
  end.

(** The same number counted in units of [2^-149], the smallest positive
    [float]; an integer for every [float]. *)
Definition float_units (x : spec_float) : Z :=
  match x with
  | S754_finite s m e => cond_Zopp s (Zpos m * 2 ^ (e + 149))
  | _ => 0
  end.

(** [x] differs from the number [c] by more than [tol].  An infinity
    differs from any number by more than any tolerance; a NaN compares
    with nothing. *)
Definition differs_by_more_than (tol : Q) (x : spec_float) (c : Q) : Prop :=
  match x with
  | S754_nan => False
  | S754_infinity _ => True
  | _ => (tol < Qabs (float_value x - c))%Q
  end.

(** The instance of [DoGemm] that [RunGemm] selects for an output
    dtype. *)
Definition Input_of (t : PrimitiveType) : option InputType :=
  match t with
  | F16 => Some Eigen_half
  | BF16 => Some Eigen_bfloat16
  | F32 => Some float
  | _ => None
  end.

(** The post-operations of the primitives that a run has built. *)
Definition registered_post_ops (calls : list BackendCall) : list post_op :=
  flat_map (fun call => match call with
                        | MatmulPrimitiveDesc pd => post_ops (attr pd)
                        | _ => []
                        end) calls.

Definition is_linear_scale (op : post_op) : bool :=
  match op with eltwise_linear _ _ => true | sum _ => false end.

Definition is_accumulate (op : post_op) : bool :=
  match op with sum _ => true | eltwise_linear _ _ => false end.

(** ** Concrete inputs *)

Definition nominal_backend : Backend :=
  {| GetFP32MathMode := 0%N;
     scratchpad_size := fun _ => 0;
     allocate_workspace := fun _ => (OkStatus, 16384) |}.

Definition descriptor_of (t : Transpose) (rows cols : Z) : MatrixDescriptor :=
  {| data := {| opaque := 4096 |}; transpose := t;
     num_rows := rows; num_cols := cols;
     batch_stride := rows * cols; leading_dim_stride := cols |}.

Definition layout_of (t : PrimitiveType) (o : Order) (rows cols : Z)
  : MatrixLayout :=
  {| dtype := t; layout_num_rows := rows; layout_num_cols := cols;
     order := o; layout_leading_dim_stride := cols;
     batch_size := 1; layout_batch_stride := rows * cols |}.

(** The doubles [1.0] and [0.0], the floats [2.0f] and [1.0f]. *)
Definition double_1 : spec_float := S754_finite false 4503599627370496 (-52).
Definition double_0 : spec_float := S754_zero false.
Definition float_2 : spec_float := S754_finite false 8388608 (-22).

(** A 2x5 by 5x3 product with the given lhs, rhs and output dtypes,
    [alpha = 1] and [beta = 0]. *)
Definition config_of (l r o : PrimitiveType) : GemmConfig :=
  {| lhs_layout := layout_of l kRowMajor 2 5;
     rhs_layout := layout_of r kRowMajor 5 3;
     output_layout := layout_of o kRowMajor 2 3;
     alpha := {| real := double_1; imag := double_0 |};
     beta := double_0;
     compute_precision := 0 |}.

Definition buffer_at (address : Z) : DeviceMemoryBase :=
  {| opaque := address |}.

(** The double [1 + 135 * 2^-27], a little more than one millionth above
    [1.0]. *)
Definition double_near_1 : spec_float :=
  S754_finite false 4503604157218816 (-52).

(** ** The calls of a run *)

Definition is_Execute (call : BackendCall) : bool :=
  match call with Execute _ _ _ _ _ => true | _ => false end.

(** The primitive descriptor that [DoGemm] builds from its arguments. *)
Definition gemm_primitive (B : Backend) (Input : InputType) (batch_size : Z)
    (lhs rhs output : MatrixDescriptor) (alpha beta : spec_float)
  : matmul_primitive_desc :=
  let params := CreateMatMulParams batch_size lhs rhs output in
  {| src_md := {| md_dims := a_dims params; md_data_type := Input;
                  md_strides := a_strides params |};
     weights_md := {| md_dims := b_dims params; md_data_type := Input;
                      md_strides := b_strides params |};
     dst_md := {| md_dims := c_dims params; md_data_type := Input;
                  md_strides := c_strides params |};
     attr := {| fpmath_mode := if decide (Input = float)
                               then Some (GetFP32MathMode B) else None;
                post_ops := gemm_post_ops alpha beta |} |}.

(** The descriptors that [RunGemm] passes to [DoGemm]. *)
Definition normalized_operands (config : GemmConfig)
    (lhs_buffer rhs_buffer output_buffer : DeviceMemoryBase) : Operands :=
  MakeBlasGemmCompatible
    {| op_lhs := GetMatrixDesc (lhs_layout config) lhs_buffer;
       op_rhs := GetMatrixDesc (rhs_layout config) rhs_buffer;
       op_output := GetMatrixDesc (output_layout config) output_buffer |}.

(** ** Addresses *)

(** The offset, in elements, of the element with index [idx] under a
    strided memory descriptor: each index is multiplied by the stride of
    its dimension (see the comment in [CreateMatMulParams]). *)
Fixpoint strided_offset (idx strides : list Z) : Z :=
  match idx, strides with
  | i :: idx, s :: strides => i * s + strided_offset idx strides
  | _, _ => 0
  end.

Definition md_offset (md : memory_desc) (idx : list Z) : Z :=
  strided_offset idx (md_strides md).

(** Modelled from the spec: the offset at which a [MatrixLayout] keeps
    element [(i, j)] of matrix [b] of the batch.  Consecutive matrices are
    [batch_stride] apart; consecutive rows of a row-major matrix, and
    consecutive columns of a column-major one, are [leading_dim_stride]
    apart. *)
Definition layout_offset (layout : MatrixLayout) (b i j : Z) : Z :=
  b * layout_batch_stride layout +
  match order layout with
  | kRowMajor => i * layout_leading_dim_stride layout + j
  | kColumnMajor => j * layout_leading_dim_stride layout + i
  end.

(** ** More concrete inputs *)

(** A backend whose scratch allocator is out of memory. *)
Definition exhausted_backend : Backend :=
  {| GetFP32MathMode := 0%N;
     scratchpad_size := fun _ => 1024;
     allocate_workspace :=
       fun _ => (ExternalError "Failed to allocate workspace", 0) |}.

(** The product of a row-major 2x5 lhs and a column-major 5x3 rhs, all
    F32, into a column-major 2x3 output, with [alpha = 1] and
    [beta = 0]. *)
Definition column_major_config : GemmConfig :=
  {| lhs_layout := layout_of F32 kRowMajor 2 5;
     rhs_layout := {| dtype := F32; layout_num_rows := 5;
                      layout_num_cols := 3; order := kColumnMajor;
                      layout_leading_dim_stride := 5; batch_size := 1;
                      layout_batch_stride := 15 |};
     output_layout := {| dtype := F32; layout_num_rows := 2;
                         layout_num_cols := 3; order := kColumnMajor;
                         layout_leading_dim_stride := 2; batch_size := 1;
                         layout_batch_stride := 6 |};
     alpha := {| real := double_1; imag := double_0 |};
     beta := double_0;
     compute_precision := 0 |}.

(** The primitive that [RunGemm] builds for [column_major_config] and
    buffers at 4096, 8192 and 12288. *)
Definition column_major_primitive : matmul_primitive_desc :=
  let ops := normalized_operands column_major_config
               (buffer_at 4096) (buffer_at 8192) (buffer_at 12288) in
  gemm_primitive nominal_backend float 1
    (op_lhs ops) (op_rhs ops) (op_output ops) float_1 float_0.

(** Two layouts of the same matrix: they agree on everything but the
    batch size. *)
Definition same_matrix (l1 l2 : MatrixLayout) : Prop :=
  dtype l1 = dtype l2 /\
  layout_num_rows l1 = layout_num_rows l2 /\
  layout_num_cols l1 = layout_num_cols l2 /\
  order l1 = order l2 /\
  layout_leading_dim_stride l1 = layout_leading_dim_stride l2 /\
  layout_batch_stride l1 = layout_batch_stride l2.

(** Two configurations of the same product: the same lhs and rhs matrices,
    the same output layout, the same real part of [alpha] and the same
    [beta]. *)
Definition same_product (c1 c2 : GemmConfig) : Prop :=
  same_matrix (lhs_layout c1) (lhs_layout c2) /\
  same_matrix (rhs_layout c1) (rhs_layout c2) /\
  output_layout c1 = output_layout c2 /\
  real (alpha c1) = real (alpha c2) /\
  beta c1 = beta c2.

(** [config_of] with an imaginary part in [alpha], another compute
    precision and other batch sizes of lhs and rhs. *)
Definition config_variant (l r o : PrimitiveType) : GemmConfig :=
  {| lhs_layout := {| dtype := l; layout_num_rows := 2;
                      layout_num_cols := 5; order := kRowMajor;
                      layout_leading_dim_stride := 5; batch_size := 7;
                      layout_batch_stride := 10 |};
     rhs_layout := {| dtype := r; layout_num_rows := 5;
                      layout_num_cols := 3; order := kRowMajor;
                      layout_leading_dim_stride := 3; batch_size := 9;
                      layout_batch_stride := 15 |};
     output_layout := layout_of o kRowMajor 2 3;
     alpha := {| real := double_1; imag := double_1 |};
     beta := double_0;
     compute_precision := 2 |}.

(** * Properties *)

(** ** Descriptors *)

Section Descriptors.
Implicit Types (d : MatrixDescriptor) (layout : MatrixLayout).

(** C6: [reduced_dim] is [num_rows] of a descriptor marked transposed
    and [num_cols] of any other. *)
Theorem reduced_dim_spec d :
  (transpose d = kTranspose -> reduced_dim d = num_rows d) /\
  (transpose d <> kTranspose -> reduced_dim d = num_cols d).
Proof.
  unfold reduced_dim; split; intros H; case_decide; congruence.
Qed.

Lemma reduced_dim_spec_witness :
  reduced_dim (descriptor_of kTranspose 5 7) = 5 /\
  reduced_dim (descriptor_of kNoTranspose 5 7) = 7.
Proof.
  split.
  - exact (proj1 (reduced_dim_spec (descriptor_of kTranspose 5 7)) eq_refl).
  - apply (proj2 (reduced_dim_spec (descriptor_of kNoTranspose 5 7))).
    discriminate.
Defined.

(** Whatever the storage order, the contraction dimension of a derived
    descriptor is the layout's column count. *)
Lemma reduced_dim_GetMatrixDesc layout mem :
  reduced_dim (GetMatrixDesc layout mem) = layout_num_cols layout.
Proof.
  unfold reduced_dim, GetMatrixDesc.
  destruct (order layout); reflexivity.
Qed.

(** A derived descriptor is marked transposed or not transposed, never
    conjugate-transposed. *)
Lemma GetMatrixDesc_transpose layout mem :
  transpose (GetMatrixDesc layout mem) =
    match order layout with
    | kColumnMajor => kTranspose
    | kRowMajor => kNoTranspose
    end.
Proof. unfold GetMatrixDesc. destruct (order layout); reflexivity. Qed.

(** C5: [GetMatrixDesc] is a total function of the layout and the memory
    handle, both read-only arguments.  Its result is marked transposed
    exactly for column-major storage, and then carries the layout's
    column count as [num_rows] and its row count as [num_cols];
    otherwise it is not transposed and both counts are taken as they
    are.  The two strides and the handle are copied. *)
Theorem GetMatrixDesc_spec layout mem :
  (transpose (GetMatrixDesc layout mem) = kTranspose <->
     order layout = kColumnMajor) /\
  (order layout = kColumnMajor ->
     num_rows (GetMatrixDesc layout mem) = layout_num_cols layout /\
     num_cols (GetMatrixDesc layout mem) = layout_num_rows layout) /\
  (order layout <> kColumnMajor ->
     transpose (GetMatrixDesc layout mem) = kNoTranspose /\
     num_rows (GetMatrixDesc layout mem) = layout_num_rows layout /\
     num_cols (GetMatrixDesc layout mem) = layout_num_cols layout) /\
  batch_stride (GetMatrixDesc layout mem) = layout_batch_stride layout /\
  leading_dim_stride (GetMatrixDesc layout mem) =
    layout_leading_dim_stride layout /\
  data (GetMatrixDesc layout mem) = mem.
Proof.
  unfold GetMatrixDesc; cbn [transpose num_rows num_cols batch_stride
                              leading_dim_stride data].
  destruct (order layout); cbn; repeat split; intros;
    congruence || discriminate || reflexivity.
Qed.

Lemma GetMatrixDesc_spec_witness :
  transpose (GetMatrixDesc (layout_of F32 kColumnMajor 2 3) (buffer_at 4096))
    = kTranspose /\
  num_rows (GetMatrixDesc (layout_of F32 kColumnMajor 2 3) (buffer_at 4096))
    = 3 /\
  num_cols (GetMatrixDesc (layout_of F32 kColumnMajor 2 3) (buffer_at 4096))
    = 2.
Proof.
  pose proof (GetMatrixDesc_spec (layout_of F32 kColumnMajor 2 3)
                (buffer_at 4096)) as (Ht & Hcol & _).
  split; [apply Ht; reflexivity | apply Hcol; reflexivity].
Defined.
End Descriptors.

(** ** The operand swap *)

Lemma TransposeMatrixDesc_flipped d : flipped d (TransposeMatrixDesc d).
Proof.
  unfold flipped, TransposeMatrixDesc; cbn.
  repeat split; intros H; rewrite H; reflexivity.
Qed.

Lemma TransposeMatrixDesc_not_kTranspose d :
  transpose d = kTranspose ->
  transpose (TransposeMatrixDesc d) = kNoTranspose.
Proof. intros H. unfold TransposeMatrixDesc; cbn. rewrite H. reflexivity. Qed.

Lemma MakeBlasGemmCompatible_transposed ops :
  transpose (op_output ops) = kTranspose ->
  MakeBlasGemmCompatible ops =
    {| op_lhs := TransposeMatrixDesc (op_rhs ops);
       op_rhs := TransposeMatrixDesc (op_lhs ops);
       op_output := TransposeMatrixDesc (op_output ops) |}.
Proof. intros H. unfold MakeBlasGemmCompatible. rewrite decide_True; done. Qed.

Lemma MakeBlasGemmCompatible_not_transposed ops :
  transpose (op_output ops) <> kTranspose ->
  MakeBlasGemmCompatible ops = ops.
Proof. intros H. unfold MakeBlasGemmCompatible. rewrite decide_False; done. Qed.

Lemma MakeBlasGemmCompatible_output ops :
  transpose (op_output (MakeBlasGemmCompatible ops)) <> kTranspose.
Proof.
  destruct (decide (transpose (op_output ops) = kTranspose)) as [H|H].
  - rewrite MakeBlasGemmCompatible_transposed by done. cbn [op_output].
    rewrite TransposeMatrixDesc_not_kTranspose by done. discriminate.
  - rewrite MakeBlasGemmCompatible_not_transposed; done.
Qed.

Lemma MakeBlasGemmCompatible_checked ops :
  transpose (op_output ops) <> kConjugateTranspose ->
  transpose (op_output (MakeBlasGemmCompatible ops)) = kNoTranspose.
Proof.
  intros Hc.
  destruct (decide (transpose (op_output ops) = kTranspose)) as [H|H].
  - rewrite MakeBlasGemmCompatible_transposed by done.
    apply TransposeMatrixDesc_not_kTranspose, H.
  - rewrite MakeBlasGemmCompatible_not_transposed by done.
    destruct (transpose (op_output ops)); congruence.
Qed.

(** The descriptors that [RunGemm] hands to [DoGemm] pass its check. *)
Lemma MakeBlasGemmCompatible_derived
    lhs_layout rhs_layout output_layout lhs_buffer rhs_buffer output_buffer :
  transpose (op_output (MakeBlasGemmCompatible
    {| op_lhs := GetMatrixDesc lhs_layout lhs_buffer;
       op_rhs := GetMatrixDesc rhs_layout rhs_buffer;
       op_output := GetMatrixDesc output_layout output_buffer |}))
  = kNoTranspose.
Proof.
  apply MakeBlasGemmCompatible_checked. cbn [op_output].
  rewrite GetMatrixDesc_transpose. destruct (order _); discriminate.
Qed.

(** C1: after [MakeBlasGemmCompatible] the output descriptor is never
    marked transposed; it is marked not-transposed unless it came in
    conjugate-transposed, so always for descriptors derived from layouts,
    which is what [DoGemm] checks.  When the output comes in transposed,
    the new lhs is the old rhs flipped, the new rhs is the old lhs flipped,
    and the output is flipped. *)
Theorem MakeBlasGemmCompatible_spec :
  (forall ops,
     transpose (op_output (MakeBlasGemmCompatible ops)) <> kTranspose) /\
  (forall ops,
     transpose (op_output ops) <> kConjugateTranspose ->
     transpose (op_output (MakeBlasGemmCompatible ops)) = kNoTranspose) /\
  (forall lhs_layout rhs_layout output_layout lhs_buffer rhs_buffer
          output_buffer,
     transpose (op_output (MakeBlasGemmCompatible
       {| op_lhs := GetMatrixDesc lhs_layout lhs_buffer;
          op_rhs := GetMatrixDesc rhs_layout rhs_buffer;
          op_output := GetMatrixDesc output_layout output_buffer |}))
     = kNoTranspose) /\
  (forall ops,
     transpose (op_output ops) = kTranspose ->
     flipped (op_rhs ops) (op_lhs (MakeBlasGemmCompatible ops)) /\
     flipped (op_lhs ops) (op_rhs (MakeBlasGemmCompatible ops)) /\
     flipped (op_output ops) (op_output (MakeBlasGemmCompatible ops))).
Proof.
  split; [exact MakeBlasGemmCompatible_output|].
  split; [exact MakeBlasGemmCompatible_checked|].
  split; [exact MakeBlasGemmCompatible_derived|].
  intros ops H. rewrite MakeBlasGemmCompatible_transposed by done.
  cbn [op_lhs op_rhs op_output].
  auto using TransposeMatrixDesc_flipped.
Qed.

Lemma MakeBlasGemmCompatible_spec_witness :
  let ops := {| op_lhs := descriptor_of kNoTranspose 2 3;
                op_rhs := descriptor_of kTranspose 4 3;
                op_output := descriptor_of kTranspose 4 2 |} in
  transpose (op_output (MakeBlasGemmCompatible ops)) = kNoTranspose /\
  flipped (op_rhs ops) (op_lhs (MakeBlasGemmCompatible ops)) /\
  flipped (op_lhs ops) (op_rhs (MakeBlasGemmCompatible ops)) /\
  flipped (op_output ops) (op_output (MakeBlasGemmCompatible ops)).
Proof.
  intros ops.
  pose proof MakeBlasGemmCompatible_spec as (_ & Hno & _ & Hflip).
  split.
  - apply Hno. discriminate.
  - apply Hflip. reflexivity.
Defined.

(** C9: a triple whose output is not marked transposed is left as it is,
    and so [MakeBlasGemmCompatible] is idempotent. *)
Theorem MakeBlasGemmCompatible_idempotent :
  (forall ops,
     transpose (op_output ops) <> kTranspose ->
     MakeBlasGemmCompatible ops = ops) /\
  (forall ops,
     MakeBlasGemmCompatible (MakeBlasGemmCompatible ops) =
     MakeBlasGemmCompatible ops).
Proof.
  split.
  - exact MakeBlasGemmCompatible_not_transposed.
  - intros ops. apply MakeBlasGemmCompatible_not_transposed,
      MakeBlasGemmCompatible_output.
Qed.

Lemma MakeBlasGemmCompatible_idempotent_witness :
  let ops := {| op_lhs := descriptor_of kTranspose 3 2;
                op_rhs := descriptor_of kNoTranspose 3 4;
                op_output := descriptor_of kNoTranspose 2 4 |} in
  MakeBlasGemmCompatible ops = ops.
Proof.
  intros ops.
  apply (proj1 MakeBlasGemmCompatible_idempotent). discriminate.
Defined.

(** ** Shape and stride tuples *)

Lemma DoGemm_checked B Input batch_size m n k lhs rhs output a b cp :
  fst (DoGemm B Input batch_size m n k lhs rhs output a b cp) <> CheckFailed ->
  transpose output = kNoTranspose.
Proof.
  unfold DoGemm. case_decide; [done|]. cbn. congruence.
Qed.

(** C7: wherever the code calls [CreateMatMulParams], that is in [DoGemm]
    past its check that the output is not transposed, each of lhs, rhs and
    output gets the shape tuple [(batch_size, num_rows, num_cols)] and the
    stride tuple [(batch_stride, leading_dim_stride, 1)], with the last two
    entries of both swapped when the operand is marked transposed.  These
    are the shapes and strides of the three memory descriptors of every
    primitive that [DoGemm] builds. *)
Theorem CreateMatMulParams_spec :
  (forall batch_size lhs rhs out,
     transpose out = kNoTranspose ->
     a_dims (CreateMatMulParams batch_size lhs rhs out)
       = operand_dims batch_size lhs /\
     a_strides (CreateMatMulParams batch_size lhs rhs out)
       = operand_strides lhs /\
     b_dims (CreateMatMulParams batch_size lhs rhs out)
       = operand_dims batch_size rhs /\
     b_strides (CreateMatMulParams batch_size lhs rhs out)
       = operand_strides rhs /\
     c_dims (CreateMatMulParams batch_size lhs rhs out)
       = operand_dims batch_size out /\
     c_strides (CreateMatMulParams batch_size lhs rhs out)
       = operand_strides out) /\
  (forall B Input batch_size m n k lhs rhs out a b cp pd,
     In (MatmulPrimitiveDesc pd)
       (snd (DoGemm B Input batch_size m n k lhs rhs out a b cp)) ->
     md_dims (src_md pd) = operand_dims batch_size lhs /\
     md_strides (src_md pd) = operand_strides lhs /\
     md_dims (weights_md pd) = operand_dims batch_size rhs /\
     md_strides (weights_md pd) = operand_strides rhs /\
     md_dims (dst_md pd) = operand_dims batch_size out /\
     md_strides (dst_md pd) = operand_strides out).
Proof.
  assert (Hparams : forall batch_size lhs rhs out,
             transpose out = kNoTranspose ->
             CreateMatMulParams batch_size lhs rhs out =
             {| a_dims := operand_dims batch_size lhs;
                b_dims := operand_dims batch_size rhs;
                c_dims := operand_dims batch_size out;
                a_strides := operand_strides lhs;
                b_strides := operand_strides rhs;
                c_strides := operand_strides out |}).
  { intros batch_size lhs rhs out Hout.
    unfold CreateMatMulParams, operand_dims, operand_strides.
    rewrite Hout. repeat case_decide; try discriminate; reflexivity. }
  split.
  - intros batch_size lhs rhs out Hout.
    rewrite (Hparams _ _ _ _ Hout). repeat split.
  - intros B Input batch_size m n k lhs rhs out a b cp pd.
    unfold DoGemm. case_decide as Hout; [|intros []].
    rewrite (Hparams _ _ _ _ Hout).
    destruct (allocate_workspace B _) as [status workspace].
    case_decide; cbn [snd app In];
      intros Hin; repeat destruct Hin as [Hin|Hin];
      try discriminate Hin; try contradiction;
      injection Hin as <-; repeat split.
Qed.

Lemma CreateMatMulParams_spec_witness :
  let p := CreateMatMulParams 1 (descriptor_of kTranspose 5 2)
             (descriptor_of kNoTranspose 5 3)
             (descriptor_of kNoTranspose 2 3) in
  a_dims p = operand_dims 1 (descriptor_of kTranspose 5 2) /\
  a_strides p = operand_strides (descriptor_of kTranspose 5 2) /\
  b_dims p = operand_dims 1 (descriptor_of kNoTranspose 5 3) /\
  b_strides p = operand_strides (descriptor_of kNoTranspose 5 3) /\
  c_dims p = operand_dims 1 (descriptor_of kNoTranspose 2 3) /\
  c_strides p = operand_strides (descriptor_of kNoTranspose 2 3).
Proof.
  intros p.
  apply (proj1 CreateMatMulParams_spec 1 (descriptor_of kTranspose 5 2)
           (descriptor_of kNoTranspose 5 3)
           (descriptor_of kNoTranspose 2 3)).
  reflexivity.
Defined.

(** ** Dtype validation and dispatch *)

Section RunGemmDtypes.
Variable B : Backend.
Variable config : GemmConfig.
Variables lhs_buffer rhs_buffer output_buffer : DeviceMemoryBase.

Let lhs_dtype := dtype (lhs_layout config).
Let rhs_dtype := dtype (rhs_layout config).
Let output_dtype := dtype (output_layout config).

Lemma RunGemm_mismatch :
  In output_dtype validated_dtypes ->
  lhs_dtype <> output_dtype \/ rhs_dtype <> output_dtype ->
  RunGemm B config lhs_buffer rhs_buffer output_buffer =
    type_mismatch_error lhs_dtype rhs_dtype output_dtype.
Proof.
  unfold lhs_dtype, rhs_dtype, output_dtype, validated_dtypes.
  intros Hin Hne. unfold RunGemm. cbv zeta.
  rewrite andb_true_intro; [reflexivity|].
  split; apply bool_decide_eq_true_2; [|exact Hne].
  cbn in Hin. intuition congruence.
Qed.

Lemma RunGemm_not_validated :
  ~ In output_dtype validated_dtypes ->
  RunGemm B config lhs_buffer rhs_buffer output_buffer =
    unexpected_dtype_error output_dtype.
Proof.
  unfold output_dtype, validated_dtypes.
  intros Hnin. unfold RunGemm. cbv zeta.
  rewrite (bool_decide_eq_false_2 (_ \/ _)); cbn [andb].
  - destruct (dtype (output_layout config)); try reflexivity;
      exfalso; apply Hnin; cbn; tauto.
  - intros H. apply Hnin. cbn. intuition congruence.
Qed.

Lemma RunGemm_matching_wide :
  In output_dtype [F64; C64; C128] ->
  lhs_dtype = output_dtype -> rhs_dtype = output_dtype ->
  RunGemm B config lhs_buffer rhs_buffer output_buffer =
    unexpected_dtype_error output_dtype.
Proof.
  unfold lhs_dtype, rhs_dtype, output_dtype.
  intros Hin Hl Hr. unfold RunGemm. cbv zeta.
  rewrite (bool_decide_eq_false_2 (_ <> _ \/ _)), andb_false_r.
  - cbn in Hin. destruct Hin as [<-|[<-|[<-|[]]]]; reflexivity.
  - intros [H|H]; congruence.
Qed.

(** C3: when the output dtype is one of F16, BF16, F32, F64, C64 and C128
    and the lhs or the rhs dtype differs from it, [RunGemm] returns the
    type-mismatch error, whose message names the lhs, rhs and output
    dtypes, and calls nothing. *)
Theorem RunGemm_validated_mismatch :
  In output_dtype [F16; BF16; F32; F64; C64; C128] ->
  lhs_dtype <> output_dtype \/ rhs_dtype <> output_dtype ->
  RunGemm B config lhs_buffer rhs_buffer output_buffer =
    (Returned (InternalError
                 "GEMM lhs type(%s) and rhs type(%s) must match output type(%s)"
                 [lhs_dtype; rhs_dtype; output_dtype]), []).
Proof. exact RunGemm_mismatch. Qed.

(** C10: with output dtype S32, [RunGemm] returns the "Unexpected GEMM
    dtype" error whatever the lhs and rhs dtypes are, and this is not the
    type-mismatch error; the same holds of every output dtype outside the
    validated six, since the comparison with lhs and rhs is guarded by
    them. *)
Theorem RunGemm_S32_unexpected :
  (output_dtype = S32 ->
   RunGemm B config lhs_buffer rhs_buffer output_buffer =
     (Returned (InternalError "Unexpected GEMM dtype: %s" [S32]), []) /\
   RunGemm B config lhs_buffer rhs_buffer output_buffer <>
     type_mismatch_error lhs_dtype rhs_dtype output_dtype) /\
  (~ In output_dtype [F16; BF16; F32; F64; C64; C128] ->
   RunGemm B config lhs_buffer rhs_buffer output_buffer =
     (Returned (InternalError "Unexpected GEMM dtype: %s" [output_dtype]),
      [])).
Proof.
  split; [|exact RunGemm_not_validated].
  intros HS32.
  assert (Hnin : ~ In output_dtype validated_dtypes).
  { rewrite HS32. cbn. intuition discriminate. }
  rewrite (RunGemm_not_validated Hnin), HS32.
  split; [reflexivity|discriminate].
Qed.

(** C2, as the code has it: when the three dtypes are not all equal,
    [RunGemm] returns an error and calls nothing.  The error is the
    type-mismatch error when the output dtype is one of the validated six,
    and the "Unexpected GEMM dtype" error for any other output dtype. *)
Theorem RunGemm_dtypes_differ :
  ~ (lhs_dtype = output_dtype /\ rhs_dtype = output_dtype) ->
  (In output_dtype [F16; BF16; F32; F64; C64; C128] /\
   RunGemm B config lhs_buffer rhs_buffer output_buffer =
     type_mismatch_error lhs_dtype rhs_dtype output_dtype) \/
  (~ In output_dtype [F16; BF16; F32; F64; C64; C128] /\
   RunGemm B config lhs_buffer rhs_buffer output_buffer =
     unexpected_dtype_error output_dtype).
Proof.
  intros Hne.
  destruct (decide (In output_dtype validated_dtypes)) as [Hin|Hnin].
  - left. split; [exact Hin|]. apply RunGemm_mismatch; [exact Hin|].
    destruct (decide (lhs_dtype = output_dtype)); [|tauto].
    destruct (decide (rhs_dtype = output_dtype)); tauto.
  - right. split; [exact Hnin|]. apply RunGemm_not_validated, Hnin.
Qed.

(** C4, as the code has it: with output dtype S32, F64, C64 or C128,
    [RunGemm] always returns an error and calls nothing.  The error is
    the "Unexpected GEMM dtype" error when the output dtype is S32 or when
    the lhs and rhs dtypes both equal it, and the type-mismatch error when
    the output dtype is F64, C64 or C128 and the lhs or rhs dtype differs
    from it. *)
Theorem RunGemm_unsupported_output :
  In output_dtype [S32; F64; C64; C128] ->
  (output_dtype = S32 \/
     (lhs_dtype = output_dtype /\ rhs_dtype = output_dtype) ->
   RunGemm B config lhs_buffer rhs_buffer output_buffer =
     unexpected_dtype_error output_dtype) /\
  (output_dtype <> S32 ->
   lhs_dtype <> output_dtype \/ rhs_dtype <> output_dtype ->
   RunGemm B config lhs_buffer rhs_buffer output_buffer =
     type_mismatch_error lhs_dtype rhs_dtype output_dtype).
Proof.
  intros Hin. split.
  - intros [HS32|[Hl Hr]].
    + apply RunGemm_not_validated. rewrite HS32. cbn. intuition discriminate.
    + destruct (decide (output_dtype = S32)) as [HS32|HnS32].
      * apply RunGemm_not_validated. rewrite HS32. cbn.
        intuition discriminate.
      * apply RunGemm_matching_wide; [|done..].
        cbn in Hin |- *. intuition congruence.
  - intros HnS32 Hne. apply RunGemm_mismatch; [|exact Hne].
    unfold validated_dtypes. cbn in Hin |- *. intuition congruence.
Qed.
End RunGemmDtypes.

Lemma RunGemm_validated_mismatch_witness :
  RunGemm nominal_backend (config_of F16 F32 F32)
    (buffer_at 4096) (buffer_at 8192) (buffer_at 12288) =
  (Returned (InternalError
               "GEMM lhs type(%s) and rhs type(%s) must match output type(%s)"
               [F16; F32; F32]), []).
Proof.
  apply (RunGemm_validated_mismatch nominal_backend (config_of F16 F32 F32)).
  - cbn. tauto.
  - left. discriminate.
Defined.

Lemma RunGemm_S32_unexpected_witness :
  RunGemm nominal_backend (config_of F32 F16 S32)
    (buffer_at 4096) (buffer_at 8192) (buffer_at 12288) =
  (Returned (InternalError "Unexpected GEMM dtype: %s" [S32]), []).
Proof.
  apply (proj1 (RunGemm_S32_unexpected nominal_backend
                  (config_of F32 F16 S32) (buffer_at 4096) (buffer_at 8192)
                  (buffer_at 12288))).
  reflexivity.
Defined.

(** C2 fails for an output dtype outside the validated six: lhs and rhs are
    F32 and the output is S32, yet the error is not the type-mismatch
    error. *)
Lemma RunGemm_mismatch_counterexample :
  let config := config_of F32 F32 S32 in
  ~ (dtype (lhs_layout config) = dtype (output_layout config) /\
     dtype (rhs_layout config) = dtype (output_layout config)) /\
  RunGemm nominal_backend config
    (buffer_at 4096) (buffer_at 8192) (buffer_at 12288) =
  (Returned (InternalError "Unexpected GEMM dtype: %s" [S32]), []) /\
  ~ (exists args,
       fst (RunGemm nominal_backend config
              (buffer_at 4096) (buffer_at 8192) (buffer_at 12288)) =
       Returned (InternalError mismatch_format args)).
Proof.
  cbv zeta. split; [intros [H _]; discriminate H|].
  split; [reflexivity|]. intros [args H]. vm_compute in H. discriminate H.
Qed.

Lemma RunGemm_dtypes_differ_witness :
  RunGemm nominal_backend (config_of F32 F16 BF16)
    (buffer_at 4096) (buffer_at 8192) (buffer_at 12288) =
  type_mismatch_error F32 F16 BF16.
Proof.
  destruct (RunGemm_dtypes_differ nominal_backend (config_of F32 F16 BF16)
              (buffer_at 4096) (buffer_at 8192) (buffer_at 12288))
    as [[_ H]|[Hnin _]].
  - intros [H _]. discriminate H.
  - exact H.
  - exfalso. apply Hnin. cbn. tauto.
Defined.

(** C4 fails for a wide output dtype whose operands do not match it: the
    output is F64 and the lhs is F32, and the error is the type-mismatch
    error, not the "Unexpected GEMM dtype" error. *)
Lemma RunGemm_unexpected_counterexample :
  let config := config_of F32 F64 F64 in
  In (dtype (output_layout config)) [S32; F64; C64; C128] /\
  RunGemm nominal_backend config
    (buffer_at 4096) (buffer_at 8192) (buffer_at 12288) =
  (Returned (InternalError
               "GEMM lhs type(%s) and rhs type(%s) must match output type(%s)"
               [F32; F64; F64]), []) /\
  ~ (exists args,
       fst (RunGemm nominal_backend config
              (buffer_at 4096) (buffer_at 8192) (buffer_at 12288)) =
       Returned (InternalError unexpected_format args)).
Proof.
  cbv zeta. split; [cbn; tauto|].
  split; [reflexivity|]. intros [args H]. vm_compute in H. discriminate H.
Qed.

Lemma RunGemm_unsupported_output_witness :
  RunGemm nominal_backend (config_of C64 C64 C64)
    (buffer_at 4096) (buffer_at 8192) (buffer_at 12288) =
  unexpected_dtype_error C64.
Proof.
  apply (proj1 (RunGemm_unsupported_output nominal_backend
                  (config_of C64 C64 C64) (buffer_at 4096) (buffer_at 8192)
                  (buffer_at 12288) ltac:(cbn; tauto))).
  right. split; reflexivity.
Defined.

(** ** Scale and accumulate

    Binary rounding as [SpecFloat] defines it, as far as the comparison
    with [1e-6] needs it: a sum that fits the format is exact, and one
    that does not fit keeps its leading bit. *)

Lemma pow2_ge a b : a <= b -> 2 ^ a <= 2 ^ b.
Proof.
  intros H. destruct (Z.le_gt_cases 0 a).
  - apply Z.pow_le_mono_r; lia.
  - rewrite (Z.pow_neg_r 2 a) by lia. apply Z.pow_nonneg. lia.
Qed.

Lemma pow2_lt_inv a b : 0 <= b -> 2 ^ a < 2 ^ b -> a < b.
Proof.
  intros Hb H. destruct (Z.le_gt_cases b a) as [Hle|]; [|done].
  apply pow2_ge in Hle. lia.
Qed.

Lemma digits2_pos_size m : digits2_pos m = Pos.size m.
Proof. induction m; cbn; congruence. Qed.

(** [digits2_pos m] is the number of binary digits of [m]. *)
Lemma digits2_pos_bounds m :
  2 ^ (Zpos (digits2_pos m) - 1) <= Zpos m < 2 ^ Zpos (digits2_pos m).
Proof.
  rewrite digits2_pos_size. split.
  - pose proof (Pos.size_le m) as H.
    apply Pos2Z.pos_le_pos in H. rewrite Pos2Z.inj_pow in H.
    replace (Zpos (Pos.size m)) with (Z.succ (Zpos (Pos.size m) - 1)) in H by lia.
    rewrite Z.pow_succ_r in H by lia. lia.
  - pose proof (Pos.size_gt m) as H.
    apply Pos2Z.pos_lt_pos in H. rewrite Pos2Z.inj_pow in H. exact H.
Qed.

Lemma digits2_pos_unique m k :
  2 ^ (k - 1) <= Zpos m < 2 ^ k -> Zpos (digits2_pos m) = k.
Proof.
  intros [Hlo Hhi]. pose proof (digits2_pos_bounds m) as [Dlo Dhi].
  set (d := Zpos (digits2_pos m)) in *.
  assert (0 < d) by (subst d; lia).
  destruct (Z.lt_trichotomy d k) as [Hlt|[Heq|Hgt]]; [|exact Heq|].
  - assert (2 ^ d <= 2 ^ (k - 1)) by (apply Z.pow_le_mono_r; lia). lia.
  - assert (0 <= k).
    { destruct (Z.le_gt_cases 0 k); [done|].
      rewrite (Z.pow_neg_r 2 k) in Hhi by lia. lia. }
    assert (2 ^ k <= 2 ^ (d - 1)) by (apply Z.pow_le_mono_r; lia). lia.
Qed.

(** [shl_align] shifts a mantissa left to reach a smaller exponent. *)
Lemma iter_xO_spec m p : Zpos (Pos.iter xO m p) = Zpos m * 2 ^ Zpos p.
Proof.
  induction p as [|p IH] using Pos.peano_ind.
  - cbn. lia.
  - rewrite Pos.iter_succ, Pos2Z.inj_succ, Z.pow_succ_r by lia.
    rewrite Pos2Z.inj_xO, IH. lia.
Qed.

Lemma shl_align_le mx ex ex' :
  ex' <= ex ->
  exists mz, shl_align mx ex ex' = (mz, ex') /\
             Zpos mz = Zpos mx * 2 ^ (ex - ex').
Proof.
  intros Hle. unfold shl_align.
  destruct (ex' - ex) as [|p|p] eqn:E; try lia.
  - exists mx. assert (ex' = ex) as -> by lia.
    rewrite Z.sub_diag. split; [reflexivity|lia].
  - exists (Pos.iter xO mx p). split; [reflexivity|].
    rewrite iter_xO_spec. f_equal. f_equal. lia.
Qed.

Lemma shl_align_gt mx ex ex' : ex < ex' -> shl_align mx ex ex' = (mx, ex).
Proof.
  intros Hlt. unfold shl_align.
  destruct (ex' - ex) as [|p|p] eqn:E; try lia; reflexivity.
Qed.

Lemma digits2_pos_shift m mz k :
  0 <= k -> Zpos mz = Zpos m * 2 ^ k ->
  Zpos (digits2_pos mz) = Zpos (digits2_pos m) + k.
Proof.
  intros Hk Hmz. apply digits2_pos_unique. rewrite Hmz.
  pose proof (digits2_pos_bounds m) as [Dlo Dhi].
  replace (Zpos (digits2_pos m) + k - 1) with (Zpos (digits2_pos m) - 1 + k) by lia.
  rewrite !Z.pow_add_r by lia.
  assert (0 < 2 ^ k) by (apply Z.pow_pos_nonneg; lia).
  split; nia.
Qed.

(** [shr] shifts a mantissa right, dropping its low bits into the
    rounding record. *)
Lemma shr_m_shr_1 mrs : 0 <= shr_m mrs -> shr_m (shr_1 mrs) = shr_m mrs / 2.
Proof.
  destruct mrs as [m r s]. cbn [shr_m]. intros Hm.
  destruct m as [|[p|p|]|p]; cbn [shr_1 shr_m]; try lia.
  - reflexivity.
  - rewrite Pos2Z.inj_xI. apply Z.div_unique with 1; lia.
  - rewrite Pos2Z.inj_xO. apply Z.div_unique with 0; lia.
  - reflexivity.
Qed.

Lemma shr_m_iter_pos p : forall mrs,
  0 <= shr_m mrs ->
  shr_m (SpecFloat.iter_pos shr_1 p mrs) = shr_m mrs / 2 ^ Zpos p.
Proof.
  assert (Hpow : forall q, 0 < 2 ^ Zpos q)
    by (intros q; apply Z.pow_pos_nonneg; lia).
  induction p as [p IH|p IH|]; intros mrs Hm; cbn [SpecFloat.iter_pos].
  - assert (H1 : 0 <= shr_m (shr_1 mrs)).
    { rewrite shr_m_shr_1 by done. apply Z.div_pos; lia. }
    assert (H2 : 0 <= shr_m (SpecFloat.iter_pos shr_1 p (shr_1 mrs))).
    { rewrite IH by done. apply Z.div_pos; [done|apply Hpow]. }
    rewrite IH, IH, shr_m_shr_1 by done.
    rewrite !Z.div_div by (try apply Hpow; lia).
    f_equal.
    replace (Zpos p~1) with (1 + Zpos p + Zpos p) by lia.
    rewrite !Z.pow_add_r by lia. lia.
  - assert (H2 : 0 <= shr_m (SpecFloat.iter_pos shr_1 p mrs)).
    { rewrite IH by done. apply Z.div_pos; [done|apply Hpow]. }
    rewrite IH, IH by done.
    rewrite !Z.div_div by (try apply Hpow; lia).
    f_equal.
    replace (Zpos p~0) with (Zpos p + Zpos p) by lia.
    rewrite !Z.pow_add_r by lia. lia.
  - rewrite shr_m_shr_1 by done. reflexivity.
Qed.

Lemma round_nearest_even_bounds m l :
  m <= round_nearest_even m l <= m + 1.
Proof.
  unfold round_nearest_even.
  destruct l as [|[| |]]; try destruct (Z.even m); lia.
Qed.

Section Rounding.
Variables prec emax : Z.
Hypothesis prec_pos : 0 < prec.

Lemma shr_m_of_loc m l : shr_m (shr_record_of_loc m l) = m.
Proof. destruct l as [|[| |]]; reflexivity. Qed.

Lemma shr_fexp_keep m e l :
  fexp prec emax (Zdigits2 m + e) <= e ->
  shr_fexp prec emax m e l = (shr_record_of_loc m l, e).
Proof.
  intros H. unfold shr_fexp, shr.
  destruct (fexp prec emax (Zdigits2 m + e) - e) eqn:E; try reflexivity. lia.
Qed.

Lemma shr_fexp_shift m e l :
  0 <= m -> e < fexp prec emax (Zdigits2 m + e) ->
  exists mrs,
    shr_fexp prec emax m e l = (mrs, fexp prec emax (Zdigits2 m + e)) /\
    shr_m mrs = m / 2 ^ (fexp prec emax (Zdigits2 m + e) - e).
Proof.
  intros Hm H. unfold shr_fexp, shr.
  destruct (fexp prec emax (Zdigits2 m + e) - e) as [|p|p] eqn:E; try lia.
  eexists. split.
  - f_equal. lia.
  - rewrite shr_m_iter_pos by (rewrite shr_m_of_loc; exact Hm).
    rewrite shr_m_of_loc. reflexivity.
Qed.

Lemma binary_round_aux_canonical s mz ez :
  fexp prec emax (Zpos (digits2_pos mz) + ez) = ez ->
  binary_round_aux prec emax s (Zpos mz) ez loc_Exact =
    if ez <=? emax - prec then S754_finite s mz ez else S754_infinity s.
Proof.
  intros Hc. unfold binary_round_aux.
  rewrite shr_fexp_keep by (cbn [Zdigits2]; lia).
  cbn [shr_record_of_loc shr_m loc_of_shr_record round_nearest_even].
  rewrite shr_fexp_keep by (cbn [Zdigits2]; lia).
  reflexivity.
Qed.

(** A number that the format can hold at the exponent [fexp] assigns to it
    is not changed by rounding. *)
Lemma binary_round_exact s m e :
  fexp prec emax (Zpos (digits2_pos m) + e) <= e ->
  exists mz,
    Zpos mz = Zpos m * 2 ^ (e - fexp prec emax (Zpos (digits2_pos m) + e)) /\
    binary_round prec emax s m e =
      if fexp prec emax (Zpos (digits2_pos m) + e) <=? emax - prec
      then S754_finite s mz (fexp prec emax (Zpos (digits2_pos m) + e))
      else S754_infinity s.
Proof.
  intros Hle. unfold binary_round.
  destruct (shl_align_le m e _ Hle) as (mz & -> & Hmz).
  exists mz. split; [exact Hmz|].
  apply binary_round_aux_canonical.
  rewrite (digits2_pos_shift m mz
             (e - fexp prec emax (Zpos (digits2_pos m) + e)))
    by first [lia | exact Hmz].
  f_equal. lia.
Qed.

(** A number with more than [prec] digits, in the normal range, is rounded
    to [prec] digits and keeps its magnitude up to the last place, unless
    it overflows. *)
Lemma binary_round_inexact s m e :
  0 < Zpos (digits2_pos m) - prec ->
  emin prec emax <= Zpos (digits2_pos m) + e - prec ->
  binary_round prec emax s m e = S754_infinity s \/
  exists m' e',
    binary_round prec emax s m e = S754_finite s m' e' /\
    Zpos (digits2_pos m') = prec /\
    Zpos (digits2_pos m) + e - prec <= e' <= emax - prec.
Proof.
  intros Hd Hmin.
  set (d := Zpos (digits2_pos m)) in *.
  assert (Hfe : fexp prec emax (d + e) = d + e - prec)
    by (unfold fexp; lia).
  unfold binary_round. fold d. rewrite Hfe, shl_align_gt by lia.
  unfold binary_round_aux.
  destruct (shr_fexp_shift (Zpos m) e loc_Exact) as (mrs & -> & Hm1);
    [lia|cbn [Zdigits2]; fold d; lia|].
  cbn [Zdigits2] in *. fold d in Hm1 |- *. rewrite Hfe in Hm1 |- *.
  replace (d + e - prec - e) with (d - prec) in Hm1 by lia.
  pose proof (digits2_pos_bounds m) as [Dlo Dhi]. fold d in Dlo, Dhi.
  assert (Hp : 0 < 2 ^ (d - prec)) by (apply Z.pow_pos_nonneg; lia).
  assert (Hlo : 2 ^ (prec - 1) <= shr_m mrs).
  { rewrite Hm1. apply Z.div_le_lower_bound; [exact Hp|].
    rewrite <- Z.pow_add_r by lia.
    replace (d - prec + (prec - 1)) with (d - 1) by lia. exact Dlo. }
  assert (Hhi : shr_m mrs < 2 ^ prec).
  { rewrite Hm1. apply Z.div_lt_upper_bound; [exact Hp|].
    rewrite <- Z.pow_add_r by lia.
    replace (d - prec + prec) with d by lia. exact Dhi. }
  pose proof (round_nearest_even_bounds (shr_m mrs) (loc_of_shr_record mrs))
    as [Rlo Rhi].
  set (m2 := round_nearest_even (shr_m mrs) (loc_of_shr_record mrs)) in *.
  assert (H0 : 0 < 2 ^ (prec - 1)) by (apply Z.pow_pos_nonneg; lia).
  assert (Hpp : 2 ^ prec = 2 * 2 ^ (prec - 1)).
  { rewrite <- Z.pow_succ_r by lia. f_equal. lia. }
  destruct m2 as [|q|q] eqn:Eq; try lia.
  destruct (Z.eq_dec (Zpos q) (2 ^ prec)) as [Hcarry|Hnc].
  - assert (Hdq : Zpos (digits2_pos q) = prec + 1).
    { apply digits2_pos_unique. replace (prec + 1 - 1) with prec by lia.
      rewrite Z.pow_add_r by lia. lia. }
    destruct (shr_fexp_shift (Zpos q) (d + e - prec) loc_Exact)
      as (mrs2 & -> & Hm3);
      [lia|cbn [Zdigits2]; unfold fexp; lia|].
    cbn [Zdigits2] in *. rewrite Hdq in *.
    assert (Hfe2 : fexp prec emax (prec + 1 + (d + e - prec))
                   = d + e - prec + 1) by (unfold fexp; lia).
    rewrite Hfe2 in *.
    replace (d + e - prec + 1 - (d + e - prec)) with 1 in Hm3 by lia.
    rewrite Hcarry, Hpp in Hm3. change (2 ^ 1) with 2 in Hm3.
    rewrite Z.mul_comm, Z.div_mul in Hm3 by lia.
    rewrite Hm3.
    destruct (2 ^ (prec - 1)) as [|q'|q'] eqn:Eq'; try lia.
    destruct (d + e - prec + 1 <=? emax - prec) eqn:Ele; [|left; reflexivity].
    right. exists q', (d + e - prec + 1).
    split; [reflexivity|]. split.
    + apply digits2_pos_unique. lia.
    + apply Z.leb_le in Ele. lia.
  - assert (Hdq : Zpos (digits2_pos q) = prec).
    { apply digits2_pos_unique. lia. }
    rewrite shr_fexp_keep
      by (cbn [Zdigits2]; rewrite Hdq; unfold fexp; lia).
    cbn [shr_record_of_loc shr_m].
    destruct (d + e - prec <=? emax - prec) eqn:Ele; [|left; reflexivity].
    right. exists q, (d + e - prec).
    split; [reflexivity|]. split; [exact Hdq|].
    apply Z.leb_le in Ele. lia.
Qed.
End Rounding.

Section Validity.
Variables prec emax : Z.
Hypothesis prec_pos : 0 < prec.
Hypothesis emax_big : emin prec emax <= emax - prec.

Lemma valid_binary_finite s m e :
  fexp prec emax (Zpos (digits2_pos m) + e) = e -> e <= emax - prec ->
  valid_binary prec emax (S754_finite s m e) = true.
Proof.
  intros Hc He. unfold valid_binary, bounded, canonical_mantissa.
  rewrite Hc, Z.eqb_refl. cbn. apply Z.leb_le, He.
Qed.

(** Rounding to a format yields a number of the format, an infinity or a
    zero. *)
Lemma binary_round_valid s m e :
  valid_binary prec emax (binary_round prec emax s m e) = true.
Proof.
  set (d := Zpos (digits2_pos m)).
  set (fe := fexp prec emax (d + e)).
  destruct (Z.le_gt_cases fe e) as [Hle|Hgt].
  - destruct (binary_round_exact prec emax s m e Hle) as (mz & Hmz & ->).
    fold d fe in Hmz |- *.
    destruct (fe <=? emax - prec) eqn:Ele; [|reflexivity].
    apply valid_binary_finite; [|apply Z.leb_le, Ele].
    rewrite (digits2_pos_shift m mz (e - fe)) by first [lia|exact Hmz].
    fold d. replace (d + (e - fe) + fe) with (d + e) by lia. reflexivity.
  - destruct (Z.le_gt_cases (emin prec emax) (d + e - prec)) as [Hn|Hsub].
    + destruct (binary_round_inexact prec emax prec_pos s m e)
        as [->|(m' & e' & -> & Hd' & He')];
        [fold d; subst fe; unfold fexp in Hgt; lia|exact Hn|reflexivity|].
      fold d in He'.
      apply valid_binary_finite; [|lia].
      rewrite Hd'. unfold fexp. lia.
    + assert (Hfe : fe = emin prec emax) by (subst fe; unfold fexp; lia).
      unfold binary_round. fold d fe. rewrite shl_align_gt by lia.
      unfold binary_round_aux.
      destruct (shr_fexp_shift prec emax (Zpos m) e loc_Exact)
        as (mrs & -> & Hm1); [lia|cbn [Zdigits2]; fold d fe; lia|].
      cbn [Zdigits2] in *. fold d fe in Hm1 |- *.
      pose proof (digits2_pos_bounds m) as [_ Dhi]. fold d in Dhi.
      assert (Hp : 0 < 2 ^ (fe - e)) by (apply Z.pow_pos_nonneg; lia).
      assert (Hlo : 0 <= shr_m mrs) by (rewrite Hm1; apply Z.div_pos; lia).
      assert (Hhi : shr_m mrs < 2 ^ (prec - 1)).
      { rewrite Hm1. apply Z.div_lt_upper_bound; [exact Hp|].
        rewrite <- Z.pow_add_r by lia.
        eapply Z.lt_le_trans; [exact Dhi|]. apply pow2_ge. lia. }
      pose proof (round_nearest_even_bounds (shr_m mrs)
                    (loc_of_shr_record mrs)) as [Rlo Rhi].
      set (m2 := round_nearest_even (shr_m mrs) (loc_of_shr_record mrs))
        in *.
      assert (Hpp : 2 ^ prec = 2 * 2 ^ (prec - 1)).
      { rewrite <- Z.pow_succ_r by lia. f_equal. lia. }
      destruct m2 as [|q|q] eqn:Eq; try lia.
      * rewrite shr_fexp_keep by (cbn [Zdigits2]; unfold fexp; lia).
        reflexivity.
      * pose proof (digits2_pos_bounds q) as [Qlo _].
        assert (Hdq : Zpos (digits2_pos q) <= prec).
        { assert (Zpos (digits2_pos q) - 1 < prec); [|lia].
          apply pow2_lt_inv; lia. }
        rewrite shr_fexp_keep
          by (cbn [Zdigits2]; unfold fexp; lia).
        cbn [shr_record_of_loc shr_m].
        replace (fe <=? emax - prec) with true
          by (symmetry; apply Z.leb_le; lia).
        apply valid_binary_finite; [unfold fexp|]; lia.
Qed.
End Validity.

(** A finite [float] has at most 24 digits and an exponent from -149 to
    104; with fewer than 24 digits the exponent is -149. *)
Lemma is_float_finite s m e :
  is_float (S754_finite s m e) = true <->
  Z.max (Zpos (digits2_pos m) + e - 24) (-149) = e /\ e <= 104.
Proof.
  unfold is_float, valid_binary, bounded, canonical_mantissa, fexp, emin,
    float_prec, float_emax.
  rewrite andb_true_iff, Z.eqb_eq, Z.leb_le. reflexivity.
Qed.

(** A positive [float], widened to [double], is greater than the literal
    [1e-6] exactly when it is greater than one millionth. *)
Lemma double_gt_1e_6_float m e :
  is_float (S754_finite false m e) = true ->
  double_gt (float_to_double (S754_finite false m e)) double_1e_6 = true <->
  2 ^ 149 < 1000000 * (Zpos m * 2 ^ (e + 149)).
Proof.
  intros [Hcan Hmax]%is_float_finite.
  pose proof (digits2_pos_bounds m) as [Dlo Dhi].
  set (d := Zpos (digits2_pos m)) in *.
  assert (Hd : 0 < d) by (subst d; lia).
  assert (Hfe : fexp double_prec double_emax (d + e) = d + e - 53)
    by (unfold fexp, emin, double_prec, double_emax; lia).
  unfold float_to_double.
  destruct (binary_round_exact double_prec double_emax false m e)
    as (mz & Hmz & ->); [fold d; rewrite Hfe; lia|].
  fold d in Hmz |- *. rewrite Hfe in Hmz |- *.
  replace (d + e - 53 <=? double_emax - double_prec) with true
    by (symmetry; apply Z.leb_le; unfold double_emax, double_prec; lia).
  replace (e - (d + e - 53)) with (53 - d) in Hmz by lia.
  unfold double_gt, double_1e_6, SFltb, SFcompare.
  assert (Hsplit : Zpos m * 2 ^ (e + 149) * 2 ^ (53 - d)
                   = Zpos mz * 2 ^ (e + 149)) by lia.
  assert (H149 : 0 <= e + 149) by lia.
  destruct (Z.compare_spec (-72) (d + e - 53)) as [Heq|Hlt|Hgt].
  - rewrite Pos.compare_cont_spec. cbn [Pos.switch_Eq].
    assert (Hval : Zpos m * 2 ^ (e + 149) = Zpos mz * 2 ^ 77).
    { replace (e + 149) with (77 + (53 - d)) by lia.
      rewrite Z.pow_add_r, Hmz by lia. lia. }
    rewrite Hval.
    destruct (Pos.compare_spec 4722366482869645 mz) as [E|L|G].
    + subst mz. split; [discriminate|]. lia.
    + split; [intros _|reflexivity].
      apply Pos2Z.pos_lt_pos in L. lia.
    + split; [discriminate|]. apply Pos2Z.pos_lt_pos in G. lia.
  - split; [intros _|reflexivity].
    assert (2 ^ 130 <= 2 ^ (d - 1) * 2 ^ (e + 149)).
    { rewrite <- Z.pow_add_r by lia. apply pow2_ge. lia. }
    assert (0 < 2 ^ (e + 149)) by (apply Z.pow_pos_nonneg; lia).
    nia.
  - split; [discriminate|].
    assert (2 ^ d * 2 ^ (e + 149) <= 2 ^ 129).
    { rewrite <- Z.pow_add_r by lia. apply pow2_ge. lia. }
    assert (0 < 2 ^ (e + 149)) by (apply Z.pow_pos_nonneg; lia).
    nia.
Qed.

(** The rounded result of a sum whose exact value is [p * 2^ez]:
    comparing its magnitude with [1e-6] is comparing [p * 2^ez] with one
    millionth, provided that a sum of more than 24 bits is at least
    [2^-18]. *)
Lemma double_gt_1e_6_round s p ez :
  -149 <= ez <= -23 ->
  (24 < Zpos (digits2_pos p) -> -18 <= Zpos (digits2_pos p) + ez) ->
  double_gt (float_to_double (fabs (binary_round float_prec float_emax s p ez)))
    double_1e_6 = true <->
  2 ^ 149 < 1000000 * (Zpos p * 2 ^ (ez + 149)).
Proof.
  intros Hez Hbig.
  pose proof (digits2_pos_bounds p) as [Dlo Dhi].
  set (D := Zpos (digits2_pos p)) in *.
  assert (HD : 0 < D) by (subst D; lia).
  destruct (Z.le_gt_cases D 24) as [Hsmall|Hlarge].
  - assert (Hfe : fexp float_prec float_emax (D + ez) <= ez)
      by (unfold fexp, emin, float_prec, float_emax; lia).
    destruct (binary_round_exact float_prec float_emax s p ez)
      as (mz & Hmz & ->); [exact Hfe|].
    fold D in Hmz |- *.
    set (fe := fexp float_prec float_emax (D + ez)) in *.
    assert (Hfe' : fe = Z.max (D + ez - 24) (-149)) by reflexivity.
    replace (fe <=? float_emax - float_prec) with true
      by (symmetry; apply Z.leb_le; unfold float_emax, float_prec; lia).
    cbn [fabs SFabs].
    rewrite double_gt_1e_6_float.
    + replace (Zpos mz * 2 ^ (fe + 149)) with (Zpos p * 2 ^ (ez + 149));
        [reflexivity|].
      rewrite Hmz, <- Z.mul_assoc, <- Z.pow_add_r by lia.
      f_equal. f_equal. lia.
    + apply is_float_finite.
      rewrite (digits2_pos_shift p mz (ez - fe)) by first [lia|exact Hmz].
      fold D. lia.
  - specialize (Hbig Hlarge).
    assert (Htrue : 2 ^ 149 < 1000000 * (Zpos p * 2 ^ (ez + 149))).
    { assert (2 ^ 130 <= 2 ^ (D - 1) * 2 ^ (ez + 149)).
      { rewrite <- Z.pow_add_r by lia. apply pow2_ge. lia. }
      assert (0 < 2 ^ (ez + 149)) by (apply Z.pow_pos_nonneg; lia).
      nia. }
    split; [intros _; exact Htrue|intros _].
    destruct (binary_round_inexact float_prec float_emax ltac:(done) s p ez)
      as [->|(m' & e' & -> & Hd' & He')].
    + fold D. unfold float_prec. lia.
    + fold D. unfold emin, float_prec, float_emax. lia.
    + reflexivity.
    + fold D in He'. unfold float_prec, float_emax in Hd', He'.
      cbn [fabs SFabs]. rewrite double_gt_1e_6_float.
      * pose proof (digits2_pos_bounds m') as [Dlo' _]. rewrite Hd' in Dlo'.
        assert (2 ^ 130 <= 2 ^ (24 - 1) * 2 ^ (e' + 149)).
        { rewrite <- Z.pow_add_r by lia. apply pow2_ge. lia. }
        assert (0 < 2 ^ (e' + 149)) by (apply Z.pow_pos_nonneg; lia).
        nia.
      * apply is_float_finite. rewrite Hd'. lia.
Qed.

(** The test on [alpha], on integers: [alpha - 1.0f] is exact when [alpha]
    is close to 1, and at least [2^-18] in magnitude when it is rounded. *)
Lemma scale_registered_finite s m e :
  is_float (S754_finite s m e) = true ->
  scale_registered (S754_finite s m e) = true <->
  2 ^ 149 < 1000000 * Z.abs (float_units (S754_finite s m e) - 2 ^ 149).
Proof.
  intros [Hcan Hmax]%is_float_finite.
  pose proof (digits2_pos_bounds m) as [_ Dhi].
  assert (Hm24 : Zpos m < 2 ^ 24).
  { eapply Z.lt_le_trans; [exact Dhi|]. apply pow2_ge. lia. }
  unfold scale_registered, float_sub, float_1, SFsub. cbv beta iota.
  set (ez := Z.min e (-23)).
  destruct (shl_align_le m e ez) as (m1 & E1 & Hm1); [lia|].
  destruct (shl_align_le 8388608 (-23) ez) as (m2 & E2 & Hm2); [lia|].
  cbv zeta. fold ez. rewrite E1, E2. cbn [fst cond_Zopp].
  assert (Hez : -149 <= ez <= -23) by lia.
  assert (Hm2' : Zpos m2 = 2 ^ (- ez)).
  { rewrite Hm2. change 8388608 with (2 ^ 23).
    rewrite <- Z.pow_add_r by lia. f_equal. lia. }
  assert (Hunits : float_units (S754_finite s m e) - 2 ^ 149
                   = (cond_Zopp s (Zpos m1) - Zpos m2) * 2 ^ (ez + 149)).
  { cbn [float_units].
    replace (2 ^ 149) with (Zpos m2 * 2 ^ (ez + 149))
      by (rewrite Hm2', <- Z.pow_add_r by lia; f_equal; lia).
    replace (Zpos m * 2 ^ (e + 149)) with (Zpos m1 * 2 ^ (ez + 149))
      by (rewrite Hm1, <- Z.mul_assoc, <- Z.pow_add_r by lia;
          f_equal; f_equal; lia).
    destruct s; cbn [cond_Zopp]; lia. }
  assert (Hpos : 0 < 2 ^ (ez + 149)) by (apply Z.pow_pos_nonneg; lia).
  assert (Hbig : forall p,
             Zpos p = Z.abs (cond_Zopp s (Zpos m1) - Zpos m2) ->
             24 < Zpos (digits2_pos p) -> -18 <= Zpos (digits2_pos p) + ez).
  { intros p Hp HD. destruct (Z.le_gt_cases (-43) ez); [lia|].
    assert (ez = e) by lia. subst ez.
    assert (Zpos m1 = Zpos m)
      by (rewrite Hm1; replace (e - Z.min e (-23)) with 0 by lia; cbn; lia).
    assert (2 ^ 24 <= 2 ^ (- e - 1)) by (apply pow2_ge; lia).
    assert (2 ^ (- e) = 2 * 2 ^ (- e - 1)).
    { rewrite <- Z.pow_succ_r by lia. f_equal. lia. }
    assert (2 ^ (- e - 1) < Zpos p).
    { replace (Z.min e (-23)) with e in * by lia.
      destruct s; cbn [cond_Zopp] in Hp; lia. }
    pose proof (digits2_pos_bounds p) as [_ Phi].
    assert (- e - 1 < Zpos (digits2_pos p))
      by (apply pow2_lt_inv; lia).
    lia. }
  rewrite Hunits, Z.abs_mul, (Z.abs_eq (2 ^ _)) by lia.
  unfold binary_normalize.
  destruct (cond_Zopp s (Zpos m1) - Zpos m2) as [|p|p] eqn:EM.
  - cbn. split; [discriminate|lia].
  - apply double_gt_1e_6_round; [exact Hez|]. apply Hbig. reflexivity.
  - apply double_gt_1e_6_round; [exact Hez|]. apply Hbig. reflexivity.
Qed.

Lemma sum_registered_finite s m e :
  is_float (S754_finite s m e) = true ->
  sum_registered (S754_finite s m e) = true <->
  2 ^ 149 < 1000000 * Z.abs (float_units (S754_finite s m e)).
Proof.
  intros Hf. unfold sum_registered, float_sub, float_0, SFsub.
  cbn [fabs SFabs float_units].
  rewrite double_gt_1e_6_float by exact Hf.
  assert (0 <= Zpos m * 2 ^ (e + 149))
    by (apply Z.mul_nonneg_nonneg; [lia|apply Z.pow_nonneg; lia]).
  destruct s; cbn [cond_Zopp]; rewrite ?Z.abs_opp, Z.abs_eq by done;
    reflexivity.
Qed.

(** From units of [2^-149] to rationals. *)
Lemma float_value_units s m e :
  -149 <= e ->
  (float_value (S754_finite s m e)
   == float_units (S754_finite s m e) # 2 ^ 149)%Q.
Proof.
  intros He. cbn [float_value float_units].
  replace (cond_Zopp s (Zpos m * 2 ^ (e + 149)))
    with (cond_Zopp s (Zpos m) * 2 ^ (e + 149))
    by (destruct s; cbn [cond_Zopp]; lia).
  rewrite (Qmake_Qdiv (_ * _)).
  rewrite inject_Z_mult, Zpower_Qpower by lia.
  replace e with ((e + 149) + (-149)) at 1 by lia.
  rewrite Qpower_plus by discriminate.
  unfold Qdiv. rewrite Qmult_assoc. reflexivity.
Qed.

Lemma Qabs_minus_units (x : Q) (u c : Z) :
  (x == u # 2 ^ 149)%Q ->
  (1 # 1000000 < Qabs (x - inject_Z c))%Q <->
  2 ^ 149 < 1000000 * Z.abs (u - c * 2 ^ 149).
Proof.
  intros ->. unfold Qlt, Qabs, Qminus, Qplus, Qopp, inject_Z.
  cbn [Qnum Qden].
  rewrite Pos.mul_1_r, Pos2Z.inj_pow.
  change (Zpos 2) with 2. change (Zpos 149) with 149.
  replace (u * 1 + - c * 2 ^ 149) with (u - c * 2 ^ 149) by lia.
  lia.
Qed.

Lemma is_float_exponent s m e :
  is_float (S754_finite s m e) = true -> -149 <= e.
Proof. intros [Hcan _]%is_float_finite. lia. Qed.

Lemma double_to_float_is_float x : is_float (double_to_float x) = true.
Proof.
  destruct x as [s|s| |s m e]; try reflexivity.
  apply binary_round_valid; [reflexivity|discriminate].
Qed.

Lemma scale_registered_spec alpha :
  is_float alpha = true ->
  scale_registered alpha = true <->
  differs_by_more_than (1 # 1000000) alpha 1.
Proof.
  intros Hf. destruct alpha as [s|s| |s m e]; cbn [differs_by_more_than].
  - split; [intros _|reflexivity]. cbn. reflexivity.
  - split; [done|reflexivity].
  - split; [discriminate|done].
  - rewrite scale_registered_finite by exact Hf.
    symmetry. change 1%Q with (inject_Z 1).
    rewrite (Qabs_minus_units _ (float_units (S754_finite s m e)) 1)
      by (apply float_value_units; eapply is_float_exponent, Hf).
    rewrite Z.mul_1_l. reflexivity.
Qed.

Lemma sum_registered_spec beta :
  is_float beta = true ->
  sum_registered beta = true <->
  differs_by_more_than (1 # 1000000) beta 0.
Proof.
  intros Hf. destruct beta as [s|s| |s m e]; cbn [differs_by_more_than].
  - split; [destruct s; discriminate|]. cbn. discriminate.
  - split; [done|destruct s; reflexivity].
  - split; [discriminate|done].
  - rewrite sum_registered_finite by exact Hf.
    symmetry. change 0%Q with (inject_Z 0).
    rewrite (Qabs_minus_units _ (float_units (S754_finite s m e)) 0)
      by (apply float_value_units; eapply is_float_exponent, Hf).
    rewrite Z.mul_0_l, Z.sub_0_r. reflexivity.
Qed.

Lemma DoGemm_registered B Input batch_size m n k lhs rhs output a b cp :
  transpose output = kNoTranspose ->
  registered_post_ops
    (snd (DoGemm B Input batch_size m n k lhs rhs output a b cp))
  = gemm_post_ops a b.
Proof.
  intros Hout. unfold DoGemm. rewrite decide_True by exact Hout.
  destruct (allocate_workspace B _) as [status workspace].
  case_decide; cbn; apply app_nil_r.
Qed.

Lemma existsb_linear_scale a b :
  existsb is_linear_scale (gemm_post_ops a b) = scale_registered a.
Proof.
  unfold gemm_post_ops.
  destruct (scale_registered a), (sum_registered b); reflexivity.
Qed.

Lemma existsb_accumulate a b :
  existsb is_accumulate (gemm_post_ops a b) = sum_registered b.
Proof.
  unfold gemm_post_ops.
  destruct (scale_registered a), (sum_registered b); reflexivity.
Qed.

(** C8: in a dispatch that passes the output check, the primitive is built
    with a linear post-scale exactly when [alpha] differs from 1 by more
    than one millionth, and with a sum exactly when [beta] differs from 0
    by more than one millionth; the scale comes first when both are there.
    With [alpha = 1] and [beta = 0] there is neither, with [alpha = 2] and
    [beta = 0] the scale alone, with [alpha = 1] and [beta = 1] the sum
    alone, with [alpha = 2] and [beta = 1] both. *)
Theorem DoGemm_post_ops_spec
    B Input batch_size m n k lhs rhs output cp :
  transpose output = kNoTranspose ->
  let ops a b :=
    registered_post_ops
      (snd (DoGemm B Input batch_size m n k lhs rhs output a b cp)) in
  (forall a b,
     is_float a = true -> is_float b = true ->
     (existsb is_linear_scale (ops a b) = true <->
        differs_by_more_than (1 # 1000000) a 1) /\
     (existsb is_accumulate (ops a b) = true <->
        differs_by_more_than (1 # 1000000) b 0) /\
     ops a b =
       (if existsb is_linear_scale (ops a b)
        then [eltwise_linear a float_0] else []) ++
       (if existsb is_accumulate (ops a b) then [sum b] else [])) /\
  ops float_1 float_0 = [] /\
  ops float_2 float_0 = [eltwise_linear float_2 float_0] /\
  ops float_1 float_1 = [sum float_1] /\
  ops float_2 float_1 = [eltwise_linear float_2 float_0; sum float_1].
Proof.
  intros Hout ops. subst ops. cbv beta.
  split; [|rewrite !DoGemm_registered by exact Hout; repeat split].
  intros a b Ha Hb. rewrite DoGemm_registered by exact Hout.
  rewrite existsb_linear_scale, existsb_accumulate.
  split; [apply scale_registered_spec, Ha|].
  split; [apply sum_registered_spec, Hb|].
  unfold gemm_post_ops.
  destruct (scale_registered a), (sum_registered b); reflexivity.
Qed.

Lemma DoGemm_post_ops_spec_witness :
  let ops :=
    registered_post_ops
      (snd (DoGemm nominal_backend float 1 2 3 5
              (descriptor_of kTranspose 5 2) (descriptor_of kNoTranspose 5 3)
              (descriptor_of kNoTranspose 2 3) float_2 float_1 0)) in
  (existsb is_linear_scale ops = true <->
     differs_by_more_than (1 # 1000000) float_2 1) /\
  (existsb is_accumulate ops = true <->
     differs_by_more_than (1 # 1000000) float_1 0) /\
  ops =
    (if existsb is_linear_scale ops
     then [eltwise_linear float_2 float_0] else []) ++
    (if existsb is_accumulate ops then [sum float_1] else []).
Proof.
  intros ops.
  apply (proj1 (DoGemm_post_ops_spec nominal_backend float 1 2 3 5
                  (descriptor_of kTranspose 5 2)
                  (descriptor_of kNoTranspose 5 3)
                  (descriptor_of kNoTranspose 2 3) 0 eq_refl));
    reflexivity.
Defined.

(** ** From the configuration to the primitive *)

Section RunGemmDispatch.
Variable B : Backend.
Variable config : GemmConfig.
Variables lhs_buffer rhs_buffer output_buffer : DeviceMemoryBase.

Let operands :=
  MakeBlasGemmCompatible
    {| op_lhs := GetMatrixDesc (lhs_layout config) lhs_buffer;
       op_rhs := GetMatrixDesc (rhs_layout config) rhs_buffer;
       op_output := GetMatrixDesc (output_layout config) output_buffer |}.

(** With matching dtypes of a supported kind, [RunGemm] is the call of
    [DoGemm] on the derived and normalized descriptors. *)
Lemma RunGemm_dispatch Input :
  Input_of (dtype (output_layout config)) = Some Input ->
  dtype (lhs_layout config) = dtype (output_layout config) ->
  dtype (rhs_layout config) = dtype (output_layout config) ->
  RunGemm B config lhs_buffer rhs_buffer output_buffer =
  DoGemm B Input (batch_size (output_layout config))
    (layout_num_rows (output_layout config))
    (layout_num_cols (output_layout config))
    (layout_num_cols (lhs_layout config))
    (op_lhs operands) (op_rhs operands) (op_output operands)
    (double_to_float (real (alpha config)))
    (double_to_float (beta config)) (compute_precision config).
Proof.
  intros HI Hl Hr. unfold RunGemm. cbv zeta.
  rewrite (bool_decide_eq_false_2 (_ <> _ \/ _)), andb_false_r
    by (intros [H|H]; congruence).
  destruct (dtype (output_layout config)); try discriminate HI;
    injection HI as <-; reflexivity.
Qed.

(** X1: the check of [DoGemm] never fails under [RunGemm], whatever the
    configuration and the buffers. *)
Lemma RunGemm_check_passes :
  fst (RunGemm B config lhs_buffer rhs_buffer output_buffer) <> CheckFailed.
Proof.
  unfold RunGemm. cbv zeta.
  destruct (_ && _); [discriminate|].
  destruct (dtype (output_layout config)); try discriminate;
    unfold DoGemm;
    rewrite decide_True by apply MakeBlasGemmCompatible_derived;
    destruct (allocate_workspace B _); case_decide; discriminate.
Qed.

(** X12: the scalars of a [GemmConfig] are doubles; the tolerance is
    applied to them after they have been rounded to [float].  When
    [RunGemm] reaches the backend, the linear post-scale is there exactly
    when the real part of [alpha], rounded to [float], differs from 1 by
    more than one millionth, and the sum exactly when [beta], rounded to
    [float], differs from 0 by more than one millionth. *)
Lemma RunGemm_post_ops Input :
  Input_of (dtype (output_layout config)) = Some Input ->
  dtype (lhs_layout config) = dtype (output_layout config) ->
  dtype (rhs_layout config) = dtype (output_layout config) ->
  let ops := registered_post_ops
               (snd (RunGemm B config lhs_buffer rhs_buffer output_buffer)) in
  (existsb is_linear_scale ops = true <->
     differs_by_more_than (1 # 1000000)
       (double_to_float (real (alpha config))) 1) /\
  (existsb is_accumulate ops = true <->
     differs_by_more_than (1 # 1000000)
       (double_to_float (beta config)) 0).
Proof.
  intros HI Hl Hr ops. subst ops.
  rewrite (RunGemm_dispatch Input HI Hl Hr).
  rewrite DoGemm_registered by apply MakeBlasGemmCompatible_derived.
  rewrite existsb_linear_scale, existsb_accumulate.
  split; [apply scale_registered_spec|apply sum_registered_spec];
    apply double_to_float_is_float.
Qed.
End RunGemmDispatch.

(** The rounding can cross the tolerance: the double [1 + 135 * 2^-27]
    differs from 1 by more than one millionth, the float nearest to it,
    [1 + 2^-20], does not. *)
Lemma double_to_float_near_1 :
  is_double double_near_1 = true /\
  differs_by_more_than (1 # 1000000) double_near_1 1 /\
  double_to_float double_near_1 = S754_finite false 8388616 (-23) /\
  scale_registered (double_to_float double_near_1) = false.
Proof.
  split; [reflexivity|]. split; [|split; reflexivity].
  cbn [differs_by_more_than double_near_1]. vm_compute. reflexivity.
Qed.

(** ** The run as a whole *)

Lemma DoGemm_unfold B Input batch_size m n k lhs rhs output a b cp :
  transpose output = kNoTranspose ->
  DoGemm B Input batch_size m n k lhs rhs output a b cp =
  let pd := gemm_primitive B Input batch_size lhs rhs output a b in
  let bytes := scratchpad_size B pd in
  let calls := [FindOrCreateEngine; MatmulPrimitiveDesc pd;
                AllocateWorkspace bytes] in
  if decide (fst (allocate_workspace B bytes) = OkStatus)
  then (Returned OkStatus,
        calls ++ [Execute pd (opaque (data lhs)) (opaque (data rhs))
                    (opaque (data output))
                    (snd (allocate_workspace B bytes))])
  else (Returned (fst (allocate_workspace B bytes)), calls).
Proof.
  intros Hout. unfold DoGemm, gemm_primitive.
  rewrite decide_True by exact Hout. cbv zeta.
  destruct (allocate_workspace B _) as [status workspace]. reflexivity.
Qed.

Lemma normalized_output_checked config lhs_buffer rhs_buffer output_buffer :
  transpose (op_output (normalized_operands config lhs_buffer rhs_buffer
                          output_buffer)) = kNoTranspose.
Proof. apply MakeBlasGemmCompatible_derived. Qed.

Lemma normalized_row_major config lhs_buffer rhs_buffer output_buffer :
  order (output_layout config) = kRowMajor ->
  normalized_operands config lhs_buffer rhs_buffer output_buffer =
  {| op_lhs := GetMatrixDesc (lhs_layout config) lhs_buffer;
     op_rhs := GetMatrixDesc (rhs_layout config) rhs_buffer;
     op_output := GetMatrixDesc (output_layout config) output_buffer |}.
Proof.
  intros Ho. apply MakeBlasGemmCompatible_not_transposed. cbn [op_output].
  rewrite GetMatrixDesc_transpose, Ho. discriminate.
Qed.

Lemma normalized_column_major config lhs_buffer rhs_buffer output_buffer :
  order (output_layout config) = kColumnMajor ->
  normalized_operands config lhs_buffer rhs_buffer output_buffer =
  {| op_lhs := TransposeMatrixDesc
                 (GetMatrixDesc (rhs_layout config) rhs_buffer);
     op_rhs := TransposeMatrixDesc
                 (GetMatrixDesc (lhs_layout config) lhs_buffer);
     op_output := TransposeMatrixDesc
                    (GetMatrixDesc (output_layout config) output_buffer) |}.
Proof.
  intros Ho. unfold normalized_operands.
  rewrite MakeBlasGemmCompatible_transposed; [reflexivity|].
  cbn [op_output]. rewrite GetMatrixDesc_transpose, Ho. reflexivity.
Qed.


Lemma CreateMatMulParams_operands batch_size lhs rhs out :
  CreateMatMulParams batch_size lhs rhs out =
  {| a_dims := operand_dims batch_size lhs;
     b_dims := operand_dims batch_size rhs;
     c_dims := [batch_size; num_rows out; num_cols out];
     a_strides := operand_strides lhs;
     b_strides := operand_strides rhs;
     c_strides := [batch_stride out; leading_dim_stride out; 1] |}.
Proof.
  unfold CreateMatMulParams, operand_dims, operand_strides.
  repeat case_decide; reflexivity.
Qed.

(** The tuples of a descriptor derived from a layout: the shape is the
    layout's, whatever the storage order, and the unit stride goes with
    the columns of a row-major matrix and the rows of a column-major
    one.  Flipping the descriptor transposes both. *)
Lemma operand_dims_derived batch_size layout mem :
  operand_dims batch_size (GetMatrixDesc layout mem) =
  [batch_size; layout_num_rows layout; layout_num_cols layout].
Proof.
  unfold operand_dims, GetMatrixDesc. destruct (order layout); reflexivity.
Qed.

Lemma operand_strides_derived layout mem :
  operand_strides (GetMatrixDesc layout mem) =
  match order layout with
  | kRowMajor =>
      [layout_batch_stride layout; layout_leading_dim_stride layout; 1]
  | kColumnMajor =>
      [layout_batch_stride layout; 1; layout_leading_dim_stride layout]
  end.
Proof.
  unfold operand_strides, GetMatrixDesc. destruct (order layout); reflexivity.
Qed.

Lemma operand_dims_flipped batch_size layout mem :
  operand_dims batch_size (TransposeMatrixDesc (GetMatrixDesc layout mem)) =
  [batch_size; layout_num_cols layout; layout_num_rows layout].
Proof.
  unfold operand_dims, TransposeMatrixDesc, GetMatrixDesc.
  destruct (order layout); reflexivity.
Qed.

Lemma operand_strides_flipped layout mem :
  operand_strides (TransposeMatrixDesc (GetMatrixDesc layout mem)) =
  match order layout with
  | kRowMajor =>
      [layout_batch_stride layout; 1; layout_leading_dim_stride layout]
  | kColumnMajor =>
      [layout_batch_stride layout; layout_leading_dim_stride layout; 1]
  end.
Proof.
  unfold operand_strides, TransposeMatrixDesc, GetMatrixDesc.
  destruct (order layout); reflexivity.
Qed.

Section RunGemmRun.
Variable B : Backend.
Variable config : GemmConfig.
Variables lhs_buffer rhs_buffer output_buffer : DeviceMemoryBase.

Let lhs := lhs_layout config.
Let rhs := rhs_layout config.
Let out := output_layout config.
Let run := RunGemm B config lhs_buffer rhs_buffer output_buffer.
Let ops := normalized_operands config lhs_buffer rhs_buffer output_buffer.

(** The primitive of the run, when the dtypes let it through. *)
Let primitive Input :=
  gemm_primitive B Input (batch_size out)
    (op_lhs ops) (op_rhs ops) (op_output ops)
    (double_to_float (real (alpha config))) (double_to_float (beta config)).

(** [RunGemm] either stops at the dtypes with an error and no call, or
    builds one primitive, asks for its workspace and, when it gets it,
    executes. *)
Lemma RunGemm_cases :
  (snd run = [] /\
   (exists format args, fst run = Returned (InternalError format args)) /\
   ~ (In (dtype out) [F16; BF16; F32] /\
      dtype lhs = dtype out /\ dtype rhs = dtype out)) \/
  (exists Input,
     Input_of (dtype out) = Some Input /\
     dtype lhs = dtype out /\ dtype rhs = dtype out /\
     let pd := primitive Input in
     let bytes := scratchpad_size B pd in
     let calls := [FindOrCreateEngine; MatmulPrimitiveDesc pd;
                   AllocateWorkspace bytes] in
     run =
       if decide (fst (allocate_workspace B bytes) = OkStatus)
       then (Returned OkStatus,
             calls ++ [Execute pd (opaque (data (op_lhs ops)))
                         (opaque (data (op_rhs ops)))
                         (opaque (data (op_output ops)))
                         (snd (allocate_workspace B bytes))])
       else (Returned (fst (allocate_workspace B bytes)), calls)).
Proof.
  destruct (Input_of (dtype out)) as [Input|] eqn:HI.
  - destruct (decide (dtype lhs = dtype out)) as [Hl|Hl];
      [destruct (decide (dtype rhs = dtype out)) as [Hr|Hr]|].
    + right. exists Input. do 3 (split; [done|]).
      subst run. rewrite (RunGemm_dispatch B config _ _ _ Input HI Hl Hr).
      apply DoGemm_unfold, MakeBlasGemmCompatible_derived.
    + left. subst run lhs rhs out.
      rewrite RunGemm_mismatch; [|destruct (dtype (output_layout config));
        try discriminate HI; cbn; tauto|tauto].
      split; [reflexivity|]. split; [eauto|]. tauto.
    + left. subst run lhs rhs out.
      rewrite RunGemm_mismatch; [|destruct (dtype (output_layout config));
        try discriminate HI; cbn; tauto|tauto].
      split; [reflexivity|]. split; [eauto|]. tauto.
  - left. subst run lhs rhs out.
    assert (Hn : ~ In (dtype (output_layout config)) [F16; BF16; F32]).
    { cbn. destruct (dtype (output_layout config));
        try discriminate HI; intuition discriminate. }
    destruct (decide (In (dtype (output_layout config)) validated_dtypes))
      as [Hv|Hv].
    + destruct (decide (dtype (lhs_layout config)
                        = dtype (output_layout config))) as [Hl|Hl];
        [destruct (decide (dtype (rhs_layout config)
                           = dtype (output_layout config))) as [Hr|Hr]|].
      * rewrite RunGemm_matching_wide; [| |done..].
        -- split; [reflexivity|]. split; [eauto|]. tauto.
        -- unfold validated_dtypes in Hv. cbn in Hv, Hn |- *. tauto.
      * rewrite RunGemm_mismatch by tauto.
        split; [reflexivity|]. split; [eauto|]. tauto.
      * rewrite RunGemm_mismatch by tauto.
        split; [reflexivity|]. split; [eauto|]. tauto.
    + rewrite RunGemm_not_validated by exact Hv.
      split; [reflexivity|]. split; [eauto|]. tauto.
Qed.

Lemma RunGemm_primitive pd :
  In (MatmulPrimitiveDesc pd) (snd run) ->
  exists Input, Input_of (dtype out) = Some Input /\ pd = primitive Input.
Proof.
  destruct RunGemm_cases as [(Hnil & _)|(Input & HI & _ & _ & Hrun)].
  - rewrite Hnil. intros [].
  - cbv zeta in Hrun. rewrite Hrun. intros Hin. exists Input.
    split; [exact HI|].
    case_decide; cbn in Hin; intuition congruence.
Qed.

Lemma RunGemm_workspace bytes :
  In (AllocateWorkspace bytes) (snd run) ->
  exists Input,
    Input_of (dtype out) = Some Input /\
    bytes = scratchpad_size B (primitive Input).
Proof.
  destruct RunGemm_cases as [(Hnil & _)|(Input & HI & _ & _ & Hrun)].
  - rewrite Hnil. intros [].
  - cbv zeta in Hrun. rewrite Hrun. intros Hin. exists Input.
    split; [exact HI|].
    case_decide; cbn in Hin; intuition congruence.
Qed.

Lemma primitive_dims Input :
  match order out with
  | kRowMajor =>
      md_dims (src_md (primitive Input)) =
        [batch_size out; layout_num_rows lhs; layout_num_cols lhs] /\
      md_dims (weights_md (primitive Input)) =
        [batch_size out; layout_num_rows rhs; layout_num_cols rhs] /\
      md_dims (dst_md (primitive Input)) =
        [batch_size out; layout_num_rows out; layout_num_cols out]
  | kColumnMajor =>
      md_dims (src_md (primitive Input)) =
        [batch_size out; layout_num_cols rhs; layout_num_rows rhs] /\
      md_dims (weights_md (primitive Input)) =
        [batch_size out; layout_num_cols lhs; layout_num_rows lhs] /\
      md_dims (dst_md (primitive Input)) =
        [batch_size out; layout_num_cols out; layout_num_rows out]
  end.
Proof.
  subst primitive ops. unfold gemm_primitive. cbv zeta.
  rewrite CreateMatMulParams_operands.
  cbn [src_md weights_md dst_md md_dims a_dims b_dims c_dims].
  destruct (order out) eqn:Ho.
  - rewrite normalized_row_major by exact Ho. cbn [op_lhs op_rhs op_output].
    rewrite !operand_dims_derived.
    unfold GetMatrixDesc. fold out. rewrite Ho. done.
  - rewrite normalized_column_major by exact Ho.
    cbn [op_lhs op_rhs op_output]. rewrite !operand_dims_flipped.
    unfold TransposeMatrixDesc, GetMatrixDesc. fold out. rewrite Ho. done.
Qed.

Lemma primitive_strides Input :
  md_strides (dst_md (primitive Input)) =
    [layout_batch_stride out; layout_leading_dim_stride out; 1] /\
  match order out with
  | kRowMajor =>
      md_strides (src_md (primitive Input)) =
        operand_strides (GetMatrixDesc lhs lhs_buffer) /\
      md_strides (weights_md (primitive Input)) =
        operand_strides (GetMatrixDesc rhs rhs_buffer)
  | kColumnMajor =>
      md_strides (src_md (primitive Input)) =
        operand_strides (TransposeMatrixDesc (GetMatrixDesc rhs rhs_buffer))
      /\
      md_strides (weights_md (primitive Input)) =
        operand_strides (TransposeMatrixDesc (GetMatrixDesc lhs lhs_buffer))
  end.
Proof.
  subst primitive ops. unfold gemm_primitive. cbv zeta.
  rewrite CreateMatMulParams_operands.
  cbn [src_md weights_md dst_md md_strides a_strides b_strides c_strides].
  destruct (order out) eqn:Ho.
  - rewrite normalized_row_major by exact Ho. cbn [op_lhs op_rhs op_output].
    unfold GetMatrixDesc at 1 2. done.
  - rewrite normalized_column_major by exact Ho.
    cbn [op_lhs op_rhs op_output].
    unfold TransposeMatrixDesc at 1 2, GetMatrixDesc at 1 2. done.
Qed.

(** X2: [RunGemm] calls into the backend exactly when the output dtype is
    F16, BF16 or F32 and the lhs and rhs dtypes equal it; nothing else in
    the configuration (shapes, strides, batch sizes, scalars) can keep it
    from the backend. *)
Theorem RunGemm_reaches_backend :
  snd run <> [] <->
  In (dtype out) [F16; BF16; F32] /\
  dtype lhs = dtype out /\ dtype rhs = dtype out.
Proof.
  destruct RunGemm_cases as [(Hnil & _ & Hn)|(Input & HI & Hl & Hr & Hrun)].
  - rewrite Hnil. tauto.
  - cbv zeta in Hrun. rewrite Hrun. split.
    + intros _. split; [|done].
      destruct (dtype out); try discriminate HI; cbn; tauto.
    + intros _. case_decide; discriminate.
Qed.

(** X3: [RunGemm] reports success exactly when it has executed the
    primitive; it executes at most once, and only as its last call. *)
Theorem RunGemm_ok_iff_executed :
  (fst run = Returned OkStatus <-> existsb is_Execute (snd run) = true) /\
  (length (List.filter is_Execute (snd run)) <= 1)%nat /\
  existsb is_Execute (removelast (snd run)) = false.
Proof.
  destruct RunGemm_cases
    as [(Hnil & (format & args & Hst) & _)|(Input & _ & _ & _ & Hrun)].
  - rewrite Hnil, Hst. cbn. repeat split; (discriminate || lia || done).
  - cbv zeta in Hrun. rewrite Hrun.
    case_decide as Hok; cbn; repeat split;
      first [done | lia | congruence].
Qed.

(** X4: the workspace that [RunGemm] asks for has the size that oneDNN
    reports for the primitive just built; the status of the run is the
    allocator's status for that request, and the primitive is executed
    exactly when that status is OK. *)
Theorem RunGemm_allocation bytes :
  In (AllocateWorkspace bytes) (snd run) ->
  (exists pd,
     In (MatmulPrimitiveDesc pd) (snd run) /\
     bytes = scratchpad_size B pd) /\
  fst run = Returned (fst (allocate_workspace B bytes)) /\
  (existsb is_Execute (snd run) = true <->
     fst (allocate_workspace B bytes) = OkStatus).
Proof.
  destruct RunGemm_cases as [(Hnil & _)|(Input & _ & _ & _ & Hrun)].
  - rewrite Hnil. intros [].
  - cbv zeta in Hrun. rewrite Hrun. intros Hin.
    assert (Hb : bytes = scratchpad_size B (primitive Input))
      by (case_decide; cbn in Hin; intuition congruence).
    subst bytes. clear Hin Hrun.
    assert (Hpd : forall calls,
               In (MatmulPrimitiveDesc (primitive Input))
                 (FindOrCreateEngine :: MatmulPrimitiveDesc (primitive Input)
                    :: calls))
      by (intros calls; right; left; reflexivity).
    destruct (decide _) as [Hok|Hok];
      cbn [fst snd app existsb is_Execute orb].
    + split; [exists (primitive Input); split; [apply Hpd|reflexivity]|].
      rewrite Hok. done.
    + split; [exists (primitive Input); split; [apply Hpd|reflexivity]|].
      split; [done|]. split; [discriminate|done].
Qed.

(** X5: the executed primitive always writes to the output buffer.  With
    a row-major output it reads the lhs buffer as source and the rhs
    buffer as weights; with a column-major output the two are exchanged.
    It is the primitive built before, run on the workspace the allocator
    returned for it. *)
Theorem RunGemm_execute_operands pd src weights dst scratchpad :
  In (Execute pd src weights dst scratchpad) (snd run) ->
  dst = opaque output_buffer /\
  match order out with
  | kRowMajor => src = opaque lhs_buffer /\ weights = opaque rhs_buffer
  | kColumnMajor => src = opaque rhs_buffer /\ weights = opaque lhs_buffer
  end /\
  In (MatmulPrimitiveDesc pd) (snd run) /\
  scratchpad = snd (allocate_workspace B (scratchpad_size B pd)).
Proof.
  destruct RunGemm_cases as [(Hnil & _)|(Input & _ & _ & _ & Hrun)].
  - rewrite Hnil. intros [].
  - cbv zeta in Hrun. rewrite Hrun. intros Hin.
    case_decide as Hok; cbn in Hin; [|intuition discriminate].
    destruct Hin as [H|[H|[H|[H|[]]]]]; try discriminate H.
    injection H as <- <- <- <- <-.
    subst ops. cbn [snd].
    destruct (order out) eqn:Ho.
    + rewrite normalized_row_major by exact Ho.
      cbn. tauto.
    + rewrite normalized_column_major by exact Ho.
      cbn. tauto.
Qed.

(** X6: the shapes handed to oneDNN do not depend on the storage order of
    the operands.  With a row-major output they are the shapes of lhs, rhs
    and output; with a column-major output they are the transposed shapes
    of rhs, lhs and output, in this order.  The batch size of all three is
    the output's.  For conformable layouts the three shapes are those of a
    matrix product. *)
Theorem RunGemm_shapes pd :
  In (MatmulPrimitiveDesc pd) (snd run) ->
  match order out with
  | kRowMajor =>
      md_dims (src_md pd) =
        [batch_size out; layout_num_rows lhs; layout_num_cols lhs] /\
      md_dims (weights_md pd) =
        [batch_size out; layout_num_rows rhs; layout_num_cols rhs] /\
      md_dims (dst_md pd) =
        [batch_size out; layout_num_rows out; layout_num_cols out]
  | kColumnMajor =>
      md_dims (src_md pd) =
        [batch_size out; layout_num_cols rhs; layout_num_rows rhs] /\
      md_dims (weights_md pd) =
        [batch_size out; layout_num_cols lhs; layout_num_rows lhs] /\
      md_dims (dst_md pd) =
        [batch_size out; layout_num_cols out; layout_num_rows out]
  end /\
  (layout_num_rows lhs = layout_num_rows out ->
   layout_num_cols lhs = layout_num_rows rhs ->
   layout_num_cols rhs = layout_num_cols out ->
   exists M K N,
     md_dims (src_md pd) = [batch_size out; M; K] /\
     md_dims (weights_md pd) = [batch_size out; K; N] /\
     md_dims (dst_md pd) = [batch_size out; M; N]).
Proof.
  intros (Input & _ & ->)%RunGemm_primitive.
  pose proof (primitive_dims Input) as Hd.
  split; [exact Hd|]. intros HM HK HN.
  destruct (order out); destruct Hd as (-> & -> & ->).
  - exists (layout_num_rows lhs), (layout_num_cols lhs), (layout_num_cols rhs).
    rewrite HK, HM, HN. done.
  - exists (layout_num_cols rhs), (layout_num_rows rhs), (layout_num_rows lhs).
    rewrite HK, HM, HN. done.
Qed.

(** X7: the strides handed to oneDNN address each matrix where its layout
    keeps it.  With a row-major output, element [(i, j)] of the source,
    the weights and the destination is element [(i, j)] of lhs, rhs and
    output; with a column-major output, element [(j, i)] of them is
    element [(i, j)] of rhs, lhs and output.  No data is moved. *)
Theorem RunGemm_addresses pd b i j :
  In (MatmulPrimitiveDesc pd) (snd run) ->
  match order out with
  | kRowMajor =>
      md_offset (src_md pd) [b; i; j] = layout_offset lhs b i j /\
      md_offset (weights_md pd) [b; i; j] = layout_offset rhs b i j /\
      md_offset (dst_md pd) [b; i; j] = layout_offset out b i j
  | kColumnMajor =>
      md_offset (src_md pd) [b; j; i] = layout_offset rhs b i j /\
      md_offset (weights_md pd) [b; j; i] = layout_offset lhs b i j /\
      md_offset (dst_md pd) [b; j; i] = layout_offset out b i j
  end.
Proof.
  intros (Input & _ & ->)%RunGemm_primitive.
  pose proof (primitive_strides Input) as [Hdst Hs].
  unfold md_offset, layout_offset. rewrite Hdst.
  destruct (order out) eqn:Ho; destruct Hs as [-> ->].
  - rewrite !operand_strides_derived.
    destruct (order lhs), (order rhs); cbn [strided_offset];
      repeat split; lia.
  - rewrite !operand_strides_flipped.
    destruct (order lhs), (order rhs); cbn [strided_offset];
      repeat split; lia.
Qed.

(** X8: source, weights and destination of the primitive all have the
    element type that the output dtype selects, and the floating-point
    math mode is set, to what [GetFP32MathMode] answers, for F32 alone. *)
Theorem RunGemm_element_type pd :
  In (MatmulPrimitiveDesc pd) (snd run) ->
  Input_of (dtype out) = Some (md_data_type (dst_md pd)) /\
  md_data_type (src_md pd) = md_data_type (dst_md pd) /\
  md_data_type (weights_md pd) = md_data_type (dst_md pd) /\
  fpmath_mode (attr pd) =
    if decide (dtype out = F32) then Some (GetFP32MathMode B) else None.
Proof.
  intros (Input & HI & ->)%RunGemm_primitive.
  subst primitive. unfold gemm_primitive.
  cbn [src_md weights_md dst_md md_data_type attr fpmath_mode].
  repeat split; [exact HI|].
  destruct (dtype out); try discriminate HI; injection HI as <-; reflexivity.
Qed.

(** X11: the contraction dimension of the lhs descriptor that reaches
    [DoGemm] is the column count of the lhs layout when the output is
    row-major and the row count of the rhs layout when it is column-major;
    for conformable layouts it is the [k] that [RunGemm] passes. *)
Theorem reduced_dim_normalized :
  reduced_dim (op_lhs ops) =
    match order out with
    | kRowMajor => layout_num_cols lhs
    | kColumnMajor => layout_num_rows rhs
    end /\
  (layout_num_cols lhs = layout_num_rows rhs ->
   reduced_dim (op_lhs ops) = layout_num_cols lhs).
Proof.
  assert (H : reduced_dim (op_lhs ops) =
              match order out with
              | kRowMajor => layout_num_cols lhs
              | kColumnMajor => layout_num_rows rhs
              end).
  { subst ops. destruct (order out) eqn:Ho.
    - rewrite normalized_row_major by exact Ho. cbn [op_lhs].
      apply reduced_dim_GetMatrixDesc.
    - rewrite normalized_column_major by exact Ho. cbn [op_lhs].
      unfold reduced_dim, TransposeMatrixDesc, GetMatrixDesc, rhs.
      destruct (order (rhs_layout config)); reflexivity. }
  split; [exact H|]. intros HK. rewrite H, HK. destruct (order out); done.
Qed.
End RunGemmRun.

Lemma GetMatrixDesc_same l1 l2 mem :
  same_matrix l1 l2 -> GetMatrixDesc l1 mem = GetMatrixDesc l2 mem.
Proof.
  intros (_ & Hr & Hc & Ho & Hl & Hb). unfold GetMatrixDesc.
  rewrite Hr, Hc, Ho, Hl, Hb. reflexivity.
Qed.

(** X9: [RunGemm] does the same on two configurations of the same
    product: the imaginary part of [alpha], the compute precision and the
    batch sizes of the lhs and rhs layouts influence neither the status it
    returns nor any of its calls. *)
Theorem RunGemm_ignores B c1 c2 lhs_buffer rhs_buffer output_buffer :
  same_product c1 c2 ->
  RunGemm B c1 lhs_buffer rhs_buffer output_buffer =
  RunGemm B c2 lhs_buffer rhs_buffer output_buffer.
Proof.
  intros (Hl & Hr & Ho & Ha & Hb). unfold RunGemm. cbv zeta.
  rewrite (GetMatrixDesc_same _ _ _ Hl), (GetMatrixDesc_same _ _ _ Hr).
  destruct Hl as (Hdl & _ & Hk & _), Hr as (Hdr & _).
  rewrite Hdl, Hdr, Ho, Ha, Hb.
  destruct (_ && _); [reflexivity|].
  destruct (dtype (output_layout c2)); reflexivity.
Qed.

Lemma RunGemm_ignores_witness :
  RunGemm nominal_backend (config_of F32 F32 F32)
    (buffer_at 4096) (buffer_at 8192) (buffer_at 12288) =
  RunGemm nominal_backend (config_variant F32 F32 F32)
    (buffer_at 4096) (buffer_at 8192) (buffer_at 12288).
Proof.
  apply (RunGemm_ignores nominal_backend (config_of F32 F32 F32)
           (config_variant F32 F32 F32)).
  repeat split.
Defined.

Lemma operand_dims_transposed batch_size d :
  transpose d <> kConjugateTranspose ->
  operand_dims batch_size (TransposeMatrixDesc d) =
  swap_entries idx_last idx_2nd_last (operand_dims batch_size d).
Proof.
  intros Hc. unfold operand_dims, TransposeMatrixDesc. cbn [transpose].
  destruct (transpose d); try done; reflexivity.
Qed.

Lemma operand_strides_transposed d :
  transpose d <> kConjugateTranspose ->
  operand_strides (TransposeMatrixDesc d) =
  swap_entries idx_last idx_2nd_last (operand_strides d).
Proof.
  intros Hc. unfold operand_strides, TransposeMatrixDesc. cbn [transpose].
  destruct (transpose d); try done; reflexivity.
Qed.

(** X10: when [MakeBlasGemmCompatible] exchanges the operands, the tuples
    that [CreateMatMulParams] builds for the new lhs are those of the old
    rhs with the last two entries swapped, and likewise for the new rhs
    and the old lhs; the output's tuples stay as they are. *)
Theorem CreateMatMulParams_after_swap batch_size ops :
  transpose (op_output ops) = kTranspose ->
  transpose (op_lhs ops) <> kConjugateTranspose ->
  transpose (op_rhs ops) <> kConjugateTranspose ->
  let swap := swap_entries idx_last idx_2nd_last in
  let p := CreateMatMulParams batch_size
             (op_lhs ops) (op_rhs ops) (op_output ops) in
  let p' := CreateMatMulParams batch_size
              (op_lhs (MakeBlasGemmCompatible ops))
              (op_rhs (MakeBlasGemmCompatible ops))
              (op_output (MakeBlasGemmCompatible ops)) in
  a_dims p' = swap (b_dims p) /\ a_strides p' = swap (b_strides p) /\
  b_dims p' = swap (a_dims p) /\ b_strides p' = swap (a_strides p) /\
  c_dims p' = c_dims p /\ c_strides p' = c_strides p.
Proof.
  intros Hout Hl Hr. cbv zeta.
  rewrite MakeBlasGemmCompatible_transposed by exact Hout.
  rewrite !CreateMatMulParams_operands.
  cbn [op_lhs op_rhs op_output a_dims b_dims c_dims
       a_strides b_strides c_strides].
  rewrite !operand_dims_transposed, !operand_strides_transposed by done.
  repeat split.
Qed.

Lemma CreateMatMulParams_after_swap_witness :
  let ops := {| op_lhs := descriptor_of kNoTranspose 2 5;
                op_rhs := descriptor_of kTranspose 3 5;
                op_output := descriptor_of kTranspose 3 2 |} in
  let p' := CreateMatMulParams 1
              (op_lhs (MakeBlasGemmCompatible ops))
              (op_rhs (MakeBlasGemmCompatible ops))
              (op_output (MakeBlasGemmCompatible ops)) in
  a_dims p' = [1; 3; 5] /\ a_strides p' = [15; 5; 1] /\
  b_dims p' = [1; 5; 2] /\ b_strides p' = [10; 1; 5] /\
  c_dims p' = [1; 3; 2] /\ c_strides p' = [6; 2; 1].
Proof.
  exact (CreateMatMulParams_after_swap 1
           {| op_lhs := descriptor_of kNoTranspose 2 5;
              op_rhs := descriptor_of kTranspose 3 5;
              op_output := descriptor_of kTranspose 3 2 |}
           eq_refl ltac:(discriminate) ltac:(discriminate)).
Defined.

(** *** Runs on concrete configurations *)

Lemma column_major_run :
  RunGemm nominal_backend column_major_config
    (buffer_at 4096) (buffer_at 8192) (buffer_at 12288) =
  (Returned OkStatus,
   [FindOrCreateEngine; MatmulPrimitiveDesc column_major_primitive;
    AllocateWorkspace 0;
    Execute column_major_primitive 8192 4096 12288 16384]).
Proof. reflexivity. Qed.

Lemma RunGemm_allocation_witness :
  fst (RunGemm exhausted_backend (config_of F16 F16 F16)
         (buffer_at 4096) (buffer_at 8192) (buffer_at 12288)) =
    Returned (ExternalError "Failed to allocate workspace") /\
  (existsb is_Execute
     (snd (RunGemm exhausted_backend (config_of F16 F16 F16)
             (buffer_at 4096) (buffer_at 8192) (buffer_at 12288))) = true <->
   ExternalError "Failed to allocate workspace" = OkStatus).
Proof.
  apply (RunGemm_allocation exhausted_backend (config_of F16 F16 F16)
           (buffer_at 4096) (buffer_at 8192) (buffer_at 12288) 1024).
  right. right. left. reflexivity.
Defined.

Lemma RunGemm_execute_operands_witness :
  12288 = opaque (buffer_at 12288) /\
  (8192 = opaque (buffer_at 8192) /\ 4096 = opaque (buffer_at 4096)) /\
  In (MatmulPrimitiveDesc column_major_primitive)
    (snd (RunGemm nominal_backend column_major_config
            (buffer_at 4096) (buffer_at 8192) (buffer_at 12288))) /\
  16384 = snd (allocate_workspace nominal_backend
                 (scratchpad_size nominal_backend column_major_primitive)).
Proof.
  apply (RunGemm_execute_operands nominal_backend column_major_config
           (buffer_at 4096) (buffer_at 8192) (buffer_at 12288)
           column_major_primitive 8192 4096 12288 16384).
  do 3 right. left. reflexivity.
Defined.

Lemma RunGemm_shapes_witness :
  md_dims (src_md column_major_primitive) = [1; 3; 5] /\
  md_dims (weights_md column_major_primitive) = [1; 5; 2] /\
  md_dims (dst_md column_major_primitive) = [1; 3; 2].
Proof.
  exact (proj1 (RunGemm_shapes nominal_backend column_major_config
                  (buffer_at 4096) (buffer_at 8192) (buffer_at 12288)
                  column_major_primitive
                  ltac:(right; left; reflexivity))).
Defined.

Lemma RunGemm_addresses_witness :
  md_offset (src_md column_major_primitive) [0; 2; 1]
    = layout_offset (rhs_layout column_major_config) 0 1 2 /\
  md_offset (weights_md column_major_primitive) [0; 2; 1]
    = layout_offset (lhs_layout column_major_config) 0 1 2 /\
  md_offset (dst_md column_major_primitive) [0; 2; 1]
    = layout_offset (output_layout column_major_config) 0 1 2.
Proof.
  exact (RunGemm_addresses nominal_backend column_major_config
           (buffer_at 4096) (buffer_at 8192) (buffer_at 12288)
           column_major_primitive 0 1 2
           ltac:(right; left; reflexivity)).
Defined.

Lemma RunGemm_element_type_witness :
  Input_of F32 = Some (md_data_type (dst_md column_major_primitive)) /\
  md_data_type (src_md column_major_primitive)
    = md_data_type (dst_md column_major_primitive) /\
  md_data_type (weights_md column_major_primitive)
    = md_data_type (dst_md column_major_primitive) /\
  fpmath_mode (attr column_major_primitive) = Some 0%N.
Proof.
  exact (RunGemm_element_type nominal_backend column_major_config
           (buffer_at 4096) (buffer_at 8192) (buffer_at 12288)
           column_major_primitive
                  ltac:(right; left; reflexivity)).
Defined.

Lemma RunGemm_post_ops_witness :
  let ops := registered_post_ops
               (snd (RunGemm nominal_backend (config_of F32 F32 F32)
                       (buffer_at 4096) (buffer_at 8192)
                       (buffer_at 12288))) in
  (existsb is_linear_scale ops = true <->
     differs_by_more_than (1 # 1000000) (double_to_float double_1) 1) /\
  (existsb is_accumulate ops = true <->
     differs_by_more_than (1 # 1000000) (double_to_float double_0) 0).
Proof.
  exact (RunGemm_post_ops nominal_backend (config_of F32 F32 F32)
           (buffer_at 4096) (buffer_at 8192) (buffer_at 12288) float
           eq_refl eq_refl eq_refl).
Defined.
